(** * FaceDetectionApp: the orchestration layer of the face-detection demo

    A shallow embedding of [src/components/FaceDetectionApp.tsx]: the script
    loader and its memo table, the two detector adapters, the crop utility
    and the [runDetection] callback with the part of the render function
    that chooses what a result panel shows.

    Numbers.  The rectangles that reach [cropFaces] carry integer fields
    (the classical engine's [cv.Rect] has [int] fields, the neural adapter
    applies [Math.round]), so [FaceRect] has fields in [Z].  The only
    fractional quantities are the padding, a multiple of one quarter, the
    neural engine's boxes and the clock readings: they are rationals ([Q]).
    On integers below [2^51] every operation of [cropFaces] is exact in
    IEEE doubles, so [Q] computes what the source computes; [NaN] and the
    infinities are outside the model. *)

From Stdlib Require Import ZArith QArith Qround Qminmax Lia.
From stdpp Require Import gmap strings list fin_maps pretty.

Local Open Scope Z_scope.

(** ** JavaScript numbers *)

Module Js.

(** [Math.round]: the nearest integer, a tie going towards plus
    infinity. *)
Definition round (q : Q) : Z := Qfloor (q + (1 # 2))%Q.

(** The truth value of a string: only the empty string is falsy. *)
Definition truthy (s : string) : bool :=
  match s with
  | EmptyString => false
  | String _ _ => true
  end.

End Js.

(** ** Types *)

Record FaceRect := mkFaceRect {
  x : Z;
  y : Z;
  width : Z;
  height : Z
}.

(** What the code reads of an [HTMLImageElement]. *)
Record Image := mkImage {
  naturalWidth : Z;
  naturalHeight : Z
}.

(** ** Utility: face cropping *)

(** The four locals [x], [y], [w], [h] of the callback of [cropFaces]. *)
Record CropRegion := mkCropRegion {
  cx : Z;
  cy : Z;
  cw : Z;
  ch : Z
}.

(** [const padding = Math.max(face.width, face.height) * 0.25]. *)
Definition padding (face : FaceRect) : Q :=
  (inject_Z (Z.max (width face) (height face)) * (1 # 4))%Q.

Definition cropRegion (img : Image) (face : FaceRect) : CropRegion :=
  let padding := padding face in
  let x := Z.max 0 (Js.round (inject_Z (x face) - padding)) in
  let y := Z.max 0 (Js.round (inject_Z (y face) - padding)) in
  let w := Z.min (naturalWidth img - x)
                 (Js.round (inject_Z (width face) + padding * 2)) in
  let h := Z.min (naturalHeight img - y)
                 (Js.round (inject_Z (height face) + padding * 2)) in
  {| cx := x; cy := y; cw := w; ch := h |}.

(** The crop as the specification words it: pad by
    [p = round(0.25 * max(width, height))] on each of the four sides, so
    that before clamping the origin is [(x - p, y - p)] and the size
    [(width + 2p, height + 2p)].  The clamping is that of [cropRegion]. *)
Definition spec_padding (face : FaceRect) : Z :=
  Js.round ((1 # 4) * inject_Z (Z.max (width face) (height face))).

Definition spec_cropRegion (img : Image) (face : FaceRect) : CropRegion :=
  let p := spec_padding face in
  let x := Z.max 0 (x face - p) in
  let y := Z.max 0 (y face - p) in
  let w := Z.min (naturalWidth img - x) (width face + 2 * p) in
  let h := Z.min (naturalHeight img - y) (height face + 2 * p) in
  {| cx := x; cy := y; cw := w; ch := h |}.

(** The canvas that [cropFaces] creates once and reuses for every face:
    its bitmap size and what was drawn since the bitmap was last reset. *)
Inductive DrawOp :=
| ClearRect (x y w h : Z)
| DrawImage (img : Image) (sx sy sw sh dx dy dw dh : Z).

Record Canvas := mkCanvas {
  canvas_width : Z;
  canvas_height : Z;
  bitmap : list DrawOp
}.

(** [document.createElement("canvas")]: 300 by 150 and blank. *)
Definition createCanvas : Canvas := mkCanvas 300 150 [].

(** The [width] and [height] of a canvas are [unsigned long] attributes
    limited to non-negative numbers: the integer assigned is taken modulo
    [2^32], and when that is above [2^31 - 1], as it is for every negative
    integer down to [-2^31], the attribute gets its default instead, 300
    for the width and 150 for the height. *)
Definition canvas_dimension (default v : Z) : Z :=
  let n := v mod 2 ^ 32 in
  if 2147483647 <? n then default else n.

(** Assigning [width] or [height] resets the bitmap, also when the value
    does not change. *)
Definition set_width (w : Z) (c : Canvas) : Canvas :=
  mkCanvas (canvas_dimension 300 w) (canvas_height c) [].

Definition set_height (h : Z) (c : Canvas) : Canvas :=
  mkCanvas (canvas_width c) (canvas_dimension 150 h) [].

Definition draw (op : DrawOp) (c : Canvas) : Canvas :=
  mkCanvas (canvas_width c) (canvas_height c) (bitmap c ++ [op]).

(** What the host page and the browser contribute to a call. *)
Record Dom := mkDom {
  (** whether [getContext("2d")] of a fresh canvas yields a context *)
  context2d : bool;
  (** [canvas.toDataURL("image/png")] *)
  toDataURL : Canvas -> string
}.

(** One run of the callback of [faces.map]: it mutates the shared canvas
    and returns the encoded crop. *)
Definition cropFace (dom : Dom) (img : Image) (canvas : Canvas) (face : FaceRect)
  : Canvas * string :=
  let r := cropRegion img face in
  let canvas := set_width (cw r) canvas in
  let canvas := set_height (ch r) canvas in
  let canvas := draw (ClearRect 0 0 (cw r) (ch r)) canvas in
  let canvas :=
    draw (DrawImage img (cx r) (cy r) (cw r) (ch r) 0 0 (cw r) (ch r)) canvas in
  (canvas, toDataURL dom canvas).

(** The canvas as one run of the callback leaves it: sized to the crop,
    cleared, with the crop region of the image drawn at its origin. *)
Definition crop_canvas (img : Image) (face : FaceRect) : Canvas :=
  let r := cropRegion img face in
  mkCanvas (canvas_dimension 300 (cw r)) (canvas_dimension 150 (ch r))
    [ClearRect 0 0 (cw r) (ch r);
     DrawImage img (cx r) (cy r) (cw r) (ch r) 0 0 (cw r) (ch r)].

(** [Array.prototype.map] with a callback that works on a shared object:
    the elements are visited from left to right and the object is handed
    from one call to the next. *)
Fixpoint map_shared {S A B : Type} (f : S -> A -> S * B) (s : S) (l : list A)
  : S * list B :=
  match l with
  | [] => (s, [])
  | a :: l' =>
      let '(s1, b) := f s a in
      let '(s2, bs) := map_shared f s1 l' in
      (s2, b :: bs)
  end.

Definition cropFaces (dom : Dom) (img : Image) (faces : list FaceRect)
  : list string :=
  let canvas := createCanvas in
  if context2d dom
  then snd (map_shared (cropFace dom img) canvas faces)
  else [].

Record DetectionResult := mkDetectionResult {
  faces : list FaceRect;
  croppedFaces : list string;
  processingTime : Q
}.

Inductive LibraryStatus := loading | ready | error.

Record OpenCVParams := mkOpenCVParams {
  scaleFactor : Q;
  minNeighbors : Z;
  minSize : Z
}.

Record FaceApiParams := mkFaceApiParams {
  inputSize : Z;
  scoreThreshold : Q
}.

(** ** Exceptions *)

(** A thrown value.  The engines throw [Error] objects and, from compiled
    code, bare numbers, which have no [message]. *)
Inductive JsValue :=
| JsError (message : string)
| JsNumber (n : Z).

(** How a call ends; for an [async] function, how its promise settles. *)
Inductive Completion (A : Type) :=
| Normal (value : A)
| Throw (reason : JsValue).
Arguments Normal {A} value.
Arguments Throw {A} reason.

(** ** The classical engine's native objects

    OpenCV.js objects live in the WASM heap and are freed only by their
    [delete()] method.  The heap is a list indexed by handle; an object is
    [Live] from its constructor until [delete()].  Passing a deleted object
    to the engine, or deleting it again, makes the binding layer throw. *)

Record CvRect := mkCvRect {
  rx : Z;
  ry : Z;
  rwidth : Z;
  rheight : Z
}.

Inductive NativeVal :=
| VMat
| VRectVector (rects : list CvRect)
| VCascadeClassifier (loaded : bool).

Inductive NativeState := Live | Released.

Record NativeObj := mkNativeObj {
  nval : NativeVal;
  nstate : NativeState
}.

Abbreviation Heap := (list NativeObj).
Abbreviation handle := nat.

(** A computation over the native heap that may throw.  The heap is
    threaded through also when the computation throws: what was allocated
    stays allocated. *)
Definition Native (A : Type) : Type := Heap -> Completion A * Heap.

#[global] Instance native_ret : MRet Native :=
  fun A (a : A) h => (Normal a, h).

#[global] Instance native_throw : MThrow JsValue Native :=
  fun A (e : JsValue) h => (Throw e, h).

#[global] Instance native_bind : MBind Native :=
  fun A B (k : A -> Native B) (m : Native A) h =>
    match m h with
    | (Normal a, h') => k a h'
    | (Throw e, h') => (Throw e, h')
    end.

Definition BindingError : JsValue := JsError "BindingError".

(** A constructor call: a fresh handle at the end of the heap. *)
Definition new (v : NativeVal) : Native handle :=
  fun h => (Normal (length h), h ++ [mkNativeObj v Live]).

(** Reading an object on the engine's side: it has to be live. *)
Definition use (p : handle) : Native NativeVal :=
  fun h =>
    match h !! p with
    | Some (mkNativeObj v Live) => (Normal v, h)
    | _ => (Throw BindingError, h)
    end.

Definition store (p : handle) (v : NativeVal) : Native unit :=
  fun h =>
    match h !! p with
    | Some (mkNativeObj _ Live) => (Normal tt, <[p := mkNativeObj v Live]> h)
    | _ => (Throw BindingError, h)
    end.

(** [obj.delete()]. *)
Definition delete_native (p : handle) : Native unit :=
  fun h =>
    match h !! p with
    | Some (mkNativeObj v Live) => (Normal tt, <[p := mkNativeObj v Released]> h)
    | _ => (Throw BindingError, h)
    end.

(** The engine is a black box: what its calls do in one run of the adapter
    is an input of the model.  [false] and [None] stand for a call that
    throws (the compiled code throws the address of a C++ exception).
    Every call into the engine can throw: [cv.imread], the three
    constructors, [cvtColor], [equalizeHist], [classifier.load], whose
    value when it returns is [load_result], and [detectMultiScale]. *)
Record CvEngine := mkCvEngine {
  imread_ok : bool;
  cvtColor_ok : bool;
  equalizeHist_ok : bool;
  load_result : bool;
  detectMultiScale_result : option (list CvRect);
  new_Mat_ok : bool;
  new_RectVector_ok : bool;
  new_CascadeClassifier_ok : bool;
  load_ok : bool
}.

Definition cv_exception : JsValue := JsNumber 5246024.

Definition imread (cv : CvEngine) : Native handle :=
  if imread_ok cv then new VMat else mthrow cv_exception.

(** [new cv.Mat()], [new cv.RectVector()] and
    [new cv.CascadeClassifier()]. *)
Definition new_Mat (cv : CvEngine) : Native handle :=
  if new_Mat_ok cv then new VMat else mthrow cv_exception.

Definition new_RectVector (cv : CvEngine) : Native handle :=
  if new_RectVector_ok cv then new (VRectVector []) else mthrow cv_exception.

Definition new_CascadeClassifier (cv : CvEngine) : Native handle :=
  if new_CascadeClassifier_ok cv
  then new (VCascadeClassifier false)
  else mthrow cv_exception.

Definition cvtColor (cv : CvEngine) (src dst : handle) : Native unit :=
  use src ;; use dst ;;
  if cvtColor_ok cv then mret tt else mthrow cv_exception.

Definition equalizeHist (cv : CvEngine) (src dst : handle) : Native unit :=
  use src ;; use dst ;;
  if equalizeHist_ok cv then mret tt else mthrow cv_exception.

Definition classifier_load (cv : CvEngine) (classifier : handle) : Native bool :=
  use classifier ;;
  if load_ok cv
  then store classifier (VCascadeClassifier (load_result cv)) ;;
       mret (load_result cv)
  else mthrow cv_exception.

Definition detectMultiScale (cv : CvEngine) (classifier image objects : handle)
  : Native unit :=
  use classifier ;; use image ;; use objects ;;
  match detectMultiScale_result cv with
  | Some rects => store objects (VRectVector rects)
  | None => mthrow cv_exception
  end.

(** [faces.size()] and [faces.get(i)]. *)
Definition rv_size (v : handle) : Native nat :=
  o ← use v;
  match o with
  | VRectVector rects => mret (length rects)
  | _ => mthrow BindingError
  end.

Definition rv_get (v : handle) (i : nat) : Native CvRect :=
  o ← use v;
  match o with
  | VRectVector rects =>
      match rects !! i with
      | Some r => mret r
      | None => mthrow (JsError "TypeError")
      end
  | _ => mthrow BindingError
  end.

(** The loop [for (let i = 0; i < faces.size(); i++)]: the body does not
    change the vector, so the bound read before the loop is the bound of
    every test; [todo] counts the iterations that remain. *)
Definition faceRect_of (face : CvRect) : FaceRect :=
  {| x := rx face; y := ry face; width := rwidth face; height := rheight face |}.

Fixpoint extract_faces (faces : handle) (todo i : nat) (faceRects : list FaceRect)
  : Native (list FaceRect) :=
  match todo with
  | O => mret faceRects
  | S todo' =>
      face ← rv_get faces i;
      extract_faces faces todo' (S i) (faceRects ++ [faceRect_of face])
  end.

(** Two readings of [performance.now()]. *)
Record Clock := mkClock {
  startTime : Q;
  endTime : Q
}.

(** [cv.Size] is a plain JavaScript object in OpenCV.js, not a native
    one, so the two [new cv.Size(...)] leave no trace in the heap. *)
Definition detectWithOpenCV (dom : Dom) (cv : CvEngine) (clock : Clock)
  (imgElement : Image) (params : OpenCVParams) : Native DetectionResult :=
  (* tmpCanvas.getContext("2d")! followed by tmpCtx.drawImage: without a
     context the call on null throws a TypeError, whose message is the
     JavaScript engine's; "TypeError" stands for it *)
  (if context2d dom then mret tt else mthrow (JsError "TypeError")) ;;
  mat ← imread cv;
  gray ← new_Mat cv;
  cvtColor cv mat gray ;;
  equalizeHist cv gray gray ;;
  faces ← new_RectVector cv;
  classifier ← new_CascadeClassifier cv;
  classifier_load cv classifier ;;
  detectMultiScale cv classifier gray faces ;;
  n ← rv_size faces;
  faceRects ← extract_faces faces n 0 [];
  let croppedFaces := cropFaces dom imgElement faceRects in
  delete_native mat ;;
  delete_native gray ;;
  delete_native faces ;;
  delete_native classifier ;;
  mret {| faces := faceRects;
         croppedFaces := croppedFaces;
         processingTime := (endTime clock - startTime clock)%Q |}.

(** The four native objects of one call, in the order of their
    construction: the image matrix, the grayscale matrix, the rectangle
    vector and the classifier. *)
Definition call_objects (cv : CvEngine) (rects : list CvRect) (st : NativeState)
  : Heap :=
  [mkNativeObj VMat st;
   mkNativeObj VMat st;
   mkNativeObj (VRectVector rects) st;
   mkNativeObj (VCascadeClassifier (load_result cv)) st].

(** What the adapter returns when the engine reports [rects]. *)
Definition opencv_result (dom : Dom) (clock : Clock) (imgElement : Image)
  (rects : list CvRect) : DetectionResult :=
  {| faces := map faceRect_of rects;
     croppedFaces := cropFaces dom imgElement (map faceRect_of rects);
     processingTime := (endTime clock - startTime clock)%Q |}.

(** Every object in the heap beyond the first [n] has been released. *)
Definition released_from (n : nat) (h : Heap) : bool :=
  forallb (fun o => match nstate o with Released => true | Live => false end)
          (drop n h).

(** ** The neural engine *)

Record Box := mkBox {
  box_x : Q;
  box_y : Q;
  box_width : Q;
  box_height : Q
}.

Record Detection := mkDetection {
  box : Box
}.

(** The arrow function of [detections.map]. *)
Definition faceRect_of_detection (d : Detection) : FaceRect :=
  {| x := Js.round (box_x (box d));
     y := Js.round (box_y (box d));
     width := Js.round (box_width (box d));
     height := Js.round (box_height (box d)) |}.

(** [await faceapi.detectAllFaces(...)]: the boxes, or the rejection. *)
Definition FaceApiEngine := Completion (list Detection).

Definition detectWithFaceApi (dom : Dom) (faceapi : FaceApiEngine) (clock : Clock)
  (imgElement : Image) (params : FaceApiParams) : Completion DetectionResult :=
  match faceapi with
  | Throw e => Throw e
  | Normal detections =>
      let faceRects := map faceRect_of_detection detections in
      let croppedFaces := cropFaces dom imgElement faceRects in
      Normal {| faces := faceRects;
                croppedFaces := croppedFaces;
                processingTime := (endTime clock - startTime clock)%Q |}
  end.

(** The data model's condition on a rectangle, and the same on what the
    engines hand to the adapters. *)
Definition nonneg_rect (f : FaceRect) : Prop :=
  0 <= x f /\ 0 <= y f /\ 0 <= width f /\ 0 <= height f.

Definition nonneg_cvrect (r : CvRect) : Prop :=
  0 <= rx r /\ 0 <= ry r /\ 0 <= rwidth r /\ 0 <= rheight r.

Definition nonneg_box (b : Box) : Prop :=
  (0 <= box_x b)%Q /\ (0 <= box_y b)%Q /\
  (0 <= box_width b)%Q /\ (0 <= box_height b)%Q.

(** ** Main component: state and [runDetection] *)

Record UiState := mkUiState {
  opencvResult : option DetectionResult;
  faceApiResult : option DetectionResult;
  isDetecting : bool;
  opencvError : option string;
  faceApiError : option string
}.

(** The values of the [useState] calls on mount. *)
Definition initialUi : UiState := mkUiState None None false None None.

Definition setOpencvResult (v : option DetectionResult) (s : UiState) : UiState :=
  mkUiState v (faceApiResult s) (isDetecting s) (opencvError s) (faceApiError s).

Definition setFaceApiResult (v : option DetectionResult) (s : UiState) : UiState :=
  mkUiState (opencvResult s) v (isDetecting s) (opencvError s) (faceApiError s).

Definition setIsDetecting (v : bool) (s : UiState) : UiState :=
  mkUiState (opencvResult s) (faceApiResult s) v (opencvError s) (faceApiError s).

Definition setOpencvError (v : option string) (s : UiState) : UiState :=
  mkUiState (opencvResult s) (faceApiResult s) (isDetecting s) v (faceApiError s).

Definition setFaceApiError (v : option string) (s : UiState) : UiState :=
  mkUiState (opencvResult s) (faceApiResult s) (isDetecting s) (opencvError s) v.

(** [reason?.message]. *)
Definition message_of (reason : JsValue) : option string :=
  match reason with
  | JsError m => Some m
  | JsNumber _ => None
  end.

(** [reason?.message || "Detection failed"]. *)
Definition error_text (reason : JsValue) : string :=
  match message_of reason with
  | Some m => if Js.truthy m then m else "Detection failed"
  | None => "Detection failed"
  end.

(** Everything one run of [runDetection] reads from outside. *)
Record RunEnv := mkRunEnv {
  dom : Dom;
  imageRef : option Image;
  opencvStatus : LibraryStatus;
  faceApiStatus : LibraryStatus;
  opencvParams : OpenCVParams;
  faceApiParams : FaceApiParams;
  cv : CvEngine;
  faceapi : FaceApiEngine;
  opencvClock : Clock;
  faceApiClock : Clock
}.

Definition is_ready (s : LibraryStatus) : bool :=
  match s with
  | ready => true
  | _ => false
  end.

(** The first [async] arrow handed to [Promise.allSettled]. *)
Definition opencvBranch (env : RunEnv) (img : Image) : Native DetectionResult :=
  if is_ready (opencvStatus env)
  then detectWithOpenCV (dom env) (cv env) (opencvClock env) img (opencvParams env)
  else mthrow (JsError "OpenCV not loaded").

(** The second one. *)
Definition faceApiBranch (env : RunEnv) (img : Image) : Completion DetectionResult :=
  if is_ready (faceApiStatus env)
  then detectWithFaceApi (dom env) (faceapi env) (faceApiClock env) img
         (faceApiParams env)
  else Throw (JsError "face-api.js not loaded").

(** [runDetection], from the state and the native heap before the click to
    those after [setIsDetecting(false)].  [Promise.allSettled] waits for
    both branches and hands each one's completion over unchanged. *)
Definition runDetection (env : RunEnv) (s : UiState) (h : Heap) : UiState * Heap :=
  match imageRef env with
  | None => (s, h)
  | Some img =>
      let s := setIsDetecting true s in
      let s := setOpencvResult None s in
      let s := setFaceApiResult None s in
      let s := setOpencvError None s in
      let s := setFaceApiError None s in
      let '(opencvRes, h) := opencvBranch env img h in
      let faceApiRes := faceApiBranch env img in
      let s :=
        match opencvRes with
        | Normal value => setOpencvResult (Some value) s
        | Throw reason => setOpencvError (Some (error_text reason)) s
        end in
      let s :=
        match faceApiRes with
        | Normal value => setFaceApiResult (Some value) s
        | Throw reason => setFaceApiError (Some (error_text reason)) s
        end in
      (setIsDetecting false s, h)
  end.

(** The two halves of a settled branch. *)
Definition result_of {A} (c : Completion A) : option A :=
  match c with
  | Normal value => Some value
  | Throw _ => None
  end.

Definition error_of {A} (c : Completion A) : option string :=
  match c with
  | Normal _ => None
  | Throw reason => Some (error_text reason)
  end.

(** Exactly one of result and error. *)
Definition one_of {A B} (a : option A) (b : option B) : Prop :=
  (is_Some a /\ b = None) \/ (a = None /\ is_Some b).

(** ** What a result panel shows *)

Record ResultView := mkResultView {
  timeBadge : Q;
  faceCount : nat;
  (** the "Cropped Faces" grid, rendered when the list is not empty *)
  croppedGrid : option (list string);
  (** the paragraph "No faces detected" *)
  noFacesDetected : bool
}.

Inductive PanelView :=
| ShowError (text : string)
| ShowResult (v : ResultView)
| ShowNothing.

Definition renderResult (result : option DetectionResult) : PanelView :=
  match result with
  | Some r =>
      ShowResult
        {| timeBadge := processingTime r;
           faceCount := length (faces r);
           croppedGrid :=
             if (0 <? length (croppedFaces r))%nat
             then Some (croppedFaces r) else None;
           noFacesDetected := (length (faces r) =? 0)%nat |}
  | None => ShowNothing
  end.

(** [xError ? <p>{xError}</p> : xResult ? <>...</> : null]; [null] and the
    empty string are falsy. *)
Definition renderPanel (err : option string) (result : option DetectionResult)
  : PanelView :=
  match err with
  | Some text => if Js.truthy text then ShowError text else renderResult result
  | None => renderResult result
  end.

Definition opencvPanel (s : UiState) : PanelView :=
  renderPanel (opencvError s) (opencvResult s).

Definition faceApiPanel (s : UiState) : PanelView :=
  renderPanel (faceApiError s) (faceApiResult s).

(** ** CDN script loader

    [scriptLoadPromises] maps a URL to the promise of its load.  A promise
    is named by the position of the [<script>] element that its executor
    appended to [document.head]; [scripts] lists those elements with the
    state of their promises, so it is also the log of the fetches. *)

Inductive PromiseState := Pending | Resolved | Rejected.

Record Loader := mkLoader {
  scriptLoadPromises : gmap string nat;
  scripts : list (string * PromiseState)
}.

Definition initialLoader : Loader := mkLoader ∅ [].

Definition loadScript (src : string) (l : Loader) : nat * Loader :=
  match scriptLoadPromises l !! src with
  | Some existing => (existing, l)
  | None =>
      let promise := length (scripts l) in
      (promise,
       {| scriptLoadPromises := <[src := promise]> (scriptLoadPromises l);
          scripts := scripts l ++ [(src, Pending)] |})
  end.

(** [resolve()] and [reject(...)] settle a pending promise and leave a
    settled one alone. *)
Definition settle (p : nat) (to : PromiseState) (ps : list (string * PromiseState))
  : list (string * PromiseState) :=
  match ps !! p with
  | Some (src, Pending) => <[p := (src, to)]> ps
  | _ => ps
  end.

(** [script.onload = () => resolve()]. *)
Definition onload (p : nat) (l : Loader) : Loader :=
  {| scriptLoadPromises := scriptLoadPromises l;
     scripts := settle p Resolved (scripts l) |}.

(** [script.onerror]: forget the URL, then reject. *)
Definition onerror (src : string) (p : nat) (l : Loader) : Loader :=
  {| scriptLoadPromises := delete src (scriptLoadPromises l);
     scripts := settle p Rejected (scripts l) |}.

(** What can happen to the loader: a call of [loadScript], or the browser
    firing the one event, [load] or [error], of a script whose fetch is
    still under way. *)
Inductive loader_step : Loader -> Loader -> Prop :=
| step_call (src : string) (l : Loader) :
    loader_step l (snd (loadScript src l))
| step_load (p : nat) (src : string) (l : Loader) :
    scripts l !! p = Some (src, Pending) ->
    loader_step l (onload p l)
| step_error (p : nat) (src : string) (l : Loader) :
    scripts l !! p = Some (src, Pending) ->
    loader_step l (onerror src p l).

Definition reachable (l : Loader) : Prop := rtc loader_step initialLoader l.

(** The URLs fetched so far, oldest first. *)
Definition fetches (l : Loader) : list string := map fst (scripts l).

Definition promise_state (l : Loader) (p : nat) : option PromiseState :=
  snd <$> scripts l !! p.

Definition fetch_count (src : string) (l : Loader) : nat :=
  length (filter (fun u => u = src) (fetches l)).

(** The promise is pending or fulfilled. *)
Definition not_rejected (l : Loader) (p : nat) : Prop :=
  promise_state l p = Some Pending \/ promise_state l p = Some Resolved.

(** What holds of the memo table in every reachable state: an entry names
    a script of that URL whose promise is not rejected, and a script whose
    promise is not rejected is the entry of its URL. *)
Definition loader_inv (l : Loader) : Prop :=
  (forall src p,
     scriptLoadPromises l !! src = Some p ->
     exists st, scripts l !! p = Some (src, st) /\ st <> Rejected) /\
  (forall p src st,
     scripts l !! p = Some (src, st) -> st <> Rejected ->
     scriptLoadPromises l !! src = Some p).

(** ** Repeated runs and what the page shows around the panels *)

Definition is_live (o : NativeObj) : bool :=
  match nstate o with
  | Live => true
  | Released => false
  end.

(** How many native objects of the heap still hold memory. *)
Definition live_count (h : Heap) : nat := length (filter (fun o => is_live o = true) h).

(** The heap after [n] calls of the classical adapter, one after the
    other, each with the same image and the same engine behaviour. *)
Fixpoint repeat_detect (dom : Dom) (cv : CvEngine) (clock : Clock)
  (img : Image) (params : OpenCVParams) (n : nat) (h : Heap) : Heap :=
  match n with
  | O => h
  | S n' =>
      repeat_detect dom cv clock img params n'
        (snd (detectWithOpenCV dom cv clock img params h))
  end.

(** A state variable in a condition: [null] and the empty string are
    falsy, every object is truthy. *)
Definition truthy_text (o : option string) : bool :=
  match o with
  | Some text => Js.truthy text
  | None => false
  end.

Definition truthy_object {A} (o : option A) : bool :=
  match o with
  | Some _ => true
  | None => false
  end.

(** [(opencvResult || faceApiResult || opencvError || faceApiError) &&]:
    whether the grid with the two result panels is rendered. *)
Definition resultsShown (s : UiState) : bool :=
  truthy_object (opencvResult s) || truthy_object (faceApiResult s)
  || truthy_text (opencvError s) || truthy_text (faceApiError s).

(** [opencvResult && faceApiResult &&]: whether the speed comparison is
    rendered. *)
Definition comparisonShown (s : UiState) : bool :=
  truthy_object (opencvResult s) && truthy_object (faceApiResult s).

(** ** Utility: drawing the detection boxes

    The overlay canvas of a result panel.  Its context keeps the styles
    that were assigned last; every drawing call is logged with the styles
    it was made with.  The two callers pass the colours [#22c55e] and
    [#3b82f6], so every style that is assigned is one the context
    accepts.  Coordinates are rationals, because the width of a label
    comes from [measureText]. *)

Record Styles := mkStyles {
  fillStyle : string;
  strokeStyle : string;
  lineWidth : Z;
  font : string
}.

(** The styles of a context after its bitmap was reset. *)
Definition defaultStyles : Styles := mkStyles "#000000" "#000000" 1 "10px sans-serif".

Inductive OverlayOp :=
| ODrawImage (img : Image) (dx dy dw dh : Z)
| OFillRect (style : string) (x y w h : Q)
| OStrokeRect (style : string) (lineWidth : Z) (x y w h : Q)
| OFillText (style font text : string) (x y : Q).

Record Overlay := mkOverlay {
  ov_width : Z;
  ov_height : Z;
  ov_styles : Styles;
  ov_ops : list OverlayOp
}.

(** Assigning a dimension resets the bitmap and the context state. *)
Definition ov_set_width (w : Z) (c : Overlay) : Overlay :=
  mkOverlay w (ov_height c) defaultStyles [].

Definition ov_set_height (h : Z) (c : Overlay) : Overlay :=
  mkOverlay (ov_width c) h defaultStyles [].

Definition ov_draw (op : OverlayOp) (c : Overlay) : Overlay :=
  mkOverlay (ov_width c) (ov_height c) (ov_styles c) (ov_ops c ++ [op]).

Definition set_fillStyle (v : string) (c : Overlay) : Overlay :=
  let s := ov_styles c in
  mkOverlay (ov_width c) (ov_height c)
    (mkStyles v (strokeStyle s) (lineWidth s) (font s)) (ov_ops c).

Definition set_strokeStyle (v : string) (c : Overlay) : Overlay :=
  let s := ov_styles c in
  mkOverlay (ov_width c) (ov_height c)
    (mkStyles (fillStyle s) v (lineWidth s) (font s)) (ov_ops c).

Definition set_lineWidth (v : Z) (c : Overlay) : Overlay :=
  let s := ov_styles c in
  mkOverlay (ov_width c) (ov_height c)
    (mkStyles (fillStyle s) (strokeStyle s) v (font s)) (ov_ops c).

Definition set_font (v : string) (c : Overlay) : Overlay :=
  let s := ov_styles c in
  mkOverlay (ov_width c) (ov_height c)
    (mkStyles (fillStyle s) (strokeStyle s) (lineWidth s) v) (ov_ops c).

Definition fillRect (x y w h : Q) (c : Overlay) : Overlay :=
  ov_draw (OFillRect (fillStyle (ov_styles c)) x y w h) c.

Definition strokeRect (x y w h : Q) (c : Overlay) : Overlay :=
  ov_draw (OStrokeRect (strokeStyle (ov_styles c)) (lineWidth (ov_styles c)) x y w h) c.

Definition fillText (text : string) (x y : Q) (c : Overlay) : Overlay :=
  ov_draw (OFillText (fillStyle (ov_styles c)) (font (ov_styles c)) text x y) c.

(** [Math.max(2, Math.round(img.naturalWidth / 300))]. *)
Definition boxLineWidth (img : Image) : Z :=
  Z.max 2 (Js.round (inject_Z (naturalWidth img) / 300)).

(** [Math.max(14, Math.round(img.naturalWidth / 40))]. *)
Definition labelFontSize (img : Image) : Z :=
  Z.max 14 (Js.round (inject_Z (naturalWidth img) / 40)).

(** The template literals [`bold ${fontSize}px sans-serif`] and
    [`#${i + 1}`]; an integer prints in decimal. *)
Definition labelFont (fontSize : Z) : string :=
  "bold " +:+ pretty fontSize +:+ "px sans-serif".

Definition labelText (i : nat) : string := "#" +:+ pretty (i + 1)%nat.

(** The callback of [faces.forEach].  [measureText font text] is the
    width the browser reports for [text] set in [font]. *)
Definition drawFace (measureText : string -> string -> Q) (img : Image)
  (color : string) (ctx : Overlay) (face : FaceRect) (i : nat) : Overlay :=
  let ctx := set_fillStyle (color +:+ "20") ctx in
  let ctx := fillRect (inject_Z (x face)) (inject_Z (y face))
               (inject_Z (width face)) (inject_Z (height face)) ctx in
  let ctx := set_strokeStyle color ctx in
  let ctx := set_lineWidth (boxLineWidth img) ctx in
  let ctx := strokeRect (inject_Z (x face)) (inject_Z (y face))
               (inject_Z (width face)) (inject_Z (height face)) ctx in
  let fontSize := labelFontSize img in
  let ctx := set_font (labelFont fontSize) ctx in
  let label := labelText i in
  let textWidth := measureText (font (ov_styles ctx)) label in
  let ctx := set_fillStyle color ctx in
  let ctx := fillRect (inject_Z (x face)) (inject_Z (y face - fontSize - 4))
               (textWidth + 8) (inject_Z (fontSize + 4)) ctx in
  let ctx := set_fillStyle "#fff" ctx in
  fillText label (inject_Z (x face + 4)) (inject_Z (y face - 4)) ctx.

(** [Array.prototype.forEach] with the index, from index [i] on. *)
Fixpoint forEach_from {St A : Type} (f : St -> A -> nat -> St) (s : St)
  (l : list A) (i : nat) : St :=
  match l with
  | [] => s
  | a :: l' => forEach_from f (f s a i) l' (S i)
  end.

Definition drawDetections (has_context : bool) (measureText : string -> string -> Q)
  (canvas : Overlay) (img : Image) (faces : list FaceRect) (color : string)
  : Overlay :=
  if has_context then
    let canvas := ov_set_width (naturalWidth img) canvas in
    let canvas := ov_set_height (naturalHeight img) canvas in
    let canvas :=
      ov_draw (ODrawImage img 0 0 (naturalWidth img) (naturalHeight img)) canvas in
    forEach_from (drawFace measureText img color) canvas faces 0
  else canvas.

(** What one face adds to the picture: the translucent box, its border,
    the background of the label and the label. *)
Definition face_ops (measureText : string -> string -> Q) (img : Image)
  (color : string) (i : nat) (face : FaceRect) : list OverlayOp :=
  let fontSize := labelFontSize img in
  [OFillRect (color +:+ "20") (inject_Z (x face)) (inject_Z (y face))
     (inject_Z (width face)) (inject_Z (height face));
   OStrokeRect color (boxLineWidth img) (inject_Z (x face)) (inject_Z (y face))
     (inject_Z (width face)) (inject_Z (height face));
   OFillRect color (inject_Z (x face)) (inject_Z (y face - fontSize - 4))
     (measureText (labelFont fontSize) (labelText i) + 8) (inject_Z (fontSize + 4));
   OFillText "#fff" (labelFont fontSize) (labelText i)
     (inject_Z (x face + 4)) (inject_Z (y face - 4))].

(** ** Downloading a crop *)

(** The anchor that [downloadFace] creates and clicks. *)
Record Anchor := mkAnchor {
  href : string;
  download : string
}.

Definition downloadFace (dataUrl : string) (index : nat) (method : string) : Anchor :=
  {| href := dataUrl;
     download := "face_" +:+ method +:+ "_" +:+ pretty (index + 1)%nat +:+ ".png" |}.

(** ** Choosing an image *)

Record File := mkFile {
  file_name : string;
  file_type : string
}.

(** The state that the file handlers work on: the image shown, the drag
    highlight, and the results. *)
Record Page := mkPage {
  imageUrl : option string;
  isDragOver : bool;
  ui : UiState
}.

Definition setIsDragOver (v : bool) (pg : Page) : Page :=
  mkPage (imageUrl pg) v (ui pg).

(** [createObjectURL] stands for [URL.createObjectURL]. *)
Definition handleFile (createObjectURL : File -> string) (file : File) (pg : Page)
  : Page :=
  if negb (String.prefix "image/" (file_type file)) then pg
  else
    let url := createObjectURL file in
    {| imageUrl := Some url;
       isDragOver := isDragOver pg;
       ui := setFaceApiError None
               (setOpencvError None
                  (setFaceApiResult None (setOpencvResult None (ui pg)))) |}.

(** [e.target.files?.[0]] and [if (file)]. *)
Definition handleFileChange (createObjectURL : File -> string) (files : list File)
  (pg : Page) : Page :=
  match files with
  | file :: _ => handleFile createObjectURL file pg
  | [] => pg
  end.

Definition handleDrop (createObjectURL : File -> string) (files : list File)
  (pg : Page) : Page :=
  let pg := setIsDragOver false pg in
  match files with
  | file :: _ => handleFile createObjectURL file pg
  | [] => pg
  end.

Definition handleDragOver (pg : Page) : Page := setIsDragOver true pg.

Definition handleDragLeave (pg : Page) : Page := setIsDragOver false pg.

(** ** Speed comparison *)

(** A quotient of two numbers: JavaScript divides by zero without
    complaint. *)
Inductive Quotient :=
| Finite (q : Q)
| PlusInfinity
| MinusInfinity
| NotANumber.

Definition js_div (a b : Q) : Quotient :=
  match b ?= 0 with
  | Eq =>
      match a ?= 0 with
      | Gt => PlusInfinity
      | Lt => MinusInfinity
      | Eq => NotANumber
      end
  | _ => Finite (a / b)
  end%Q.

Definition js_lt (a b : Q) : bool :=
  match (a ?= b)%Q with
  | Lt => true
  | _ => false
  end.

(** [result?.processingTime ?? 0]. *)
Definition time_or_zero (result : option DetectionResult) : Q :=
  match result with
  | Some r => processingTime r
  | None => 0
  end.

Definition maxTime (s : UiState) : Q :=
  Qmax (time_or_zero (opencvResult s)) (time_or_zero (faceApiResult s)).

(** The width of a bar, in percent:
    [maxTime > 0 ? Math.max(5, (t / maxTime) * 100) : 5]. *)
Definition barWidth (t maxTime : Q) : Q :=
  if js_lt 0 maxTime then Qmax 5 (t / maxTime * 100) else 5.

Inductive Verdict :=
| OpencvFaster (times : Quotient)
| FaceApiFaster (times : Quotient)
| SameTime.

Definition verdict (opencv faceApi : DetectionResult) : Verdict :=
  if js_lt (processingTime opencv) (processingTime faceApi)
  then OpencvFaster (js_div (processingTime faceApi) (processingTime opencv))
  else if js_lt (processingTime faceApi) (processingTime opencv)
  then FaceApiFaster (js_div (processingTime opencv) (processingTime faceApi))
  else SameTime.

Record Comparison := mkComparison {
  opencvBar : Q;
  faceApiBar : Q;
  summary : Verdict
}.

(** The section is rendered when both results are there. *)
Definition renderComparison (s : UiState) : option Comparison :=
  match opencvResult s, faceApiResult s with
  | Some o, Some f =>
      Some {| opencvBar := barWidth (processingTime o) (maxTime s);
              faceApiBar := barWidth (processingTime f) (maxTime s);
              summary := verdict o f |}
  | _, _ => None
  end.

(** ** Initialization of the classical engine

    [initOpenCV] is an [async] function: besides returning or throwing
    it can wait for ever at an [await].  What the browser and the engine
    answer at each step is an input. *)

Inductive Async (A : Type) :=
| Fulfils (value : A)
| Rejects (reason : JsValue)
| NeverSettles.
Arguments Fulfils {A} value.
Arguments Rejects {A} reason.
Arguments NeverSettles {A}.

Definition HAAR_CASCADE_URL : string :=
  "https://raw.githubusercontent.com/opencv/opencv/4.x/data/haarcascades/haarcascade_frontalface_default.xml".

Definition HAAR_CASCADE_FILE : string := "haarcascade_frontalface_default.xml".

(** What [initOpenCV] works on: the native heap, the files created in the
    virtual file system of the engine, and the URLs requested with
    [fetch], oldest first. *)
Record CvWorld := mkCvWorld {
  w_heap : Heap;
  w_files : list (string * list Z);
  w_requests : list string
}.

(** What [window.cv] is once the script has run. *)
Inductive CvGlobal :=
| CvMissing
| CvFactory (module : Async unit)
| CvPromise (module : Async unit)
| CvObject (hasMat : bool) (runtimeInitialized : bool).

Record Response := mkResponse {
  resp_ok : bool;
  arrayBuffer : Async (list Z)
}.

Record InitEnv := mkInitEnv {
  (** how the promise of [loadScript(OPENCV_CDN)] settles *)
  script_loaded : Async unit;
  window_cv : CvGlobal;
  (** whether [new cv.CascadeClassifier()] returns *)
  classifier_constructs : bool;
  (** [testClassifier.load(HAAR_CASCADE_FILE)] *)
  probe_load : Completion bool;
  (** [fetch(HAAR_CASCADE_URL)] *)
  fetch_cascade : Async Response;
  (** whether [FS_createDataFile] returns *)
  createDataFile_ok : bool
}.

Definition Init (A : Type) : Type := CvWorld -> Async A * CvWorld.

#[global] Instance init_ret : MRet Init :=
  fun A (a : A) w => (Fulfils a, w).

#[global] Instance init_throw : MThrow JsValue Init :=
  fun A (e : JsValue) w => (Rejects e, w).

#[global] Instance init_bind : MBind Init :=
  fun A B (k : A -> Init B) (m : Init A) w =>
    match m w with
    | (Fulfils a, w') => k a w'
    | (Rejects e, w') => (Rejects e, w')
    | (NeverSettles, w') => (NeverSettles, w')
    end.

(** [await p] for a promise that settles as [p]. *)
Definition await {A} (p : Async A) : Init A := fun w => (p, w).

(** A synchronous engine call on the native heap. *)
Definition on_heap {A} (m : Native A) : Init A :=
  fun w =>
    match m (w_heap w) with
    | (Normal a, h) => (Fulfils a, mkCvWorld h (w_files w) (w_requests w))
    | (Throw e, h) => (Rejects e, mkCvWorld h (w_files w) (w_requests w))
    end.

(** [try { ... } catch { }] around a block that computes [needsLoad]:
    when the block throws, [needsLoad] has the value [fallback]. *)
Definition try_catch {A} (block : Init A) (fallback : A) : Init A :=
  fun w =>
    match block w with
    | (Rejects _, w') => (Fulfils fallback, w')
    | r => r
    end.

(** [testClassifier.load(HAAR_CASCADE_FILE)], on the native heap. *)
Definition test_load (env : InitEnv) (testClassifier : handle) : Native bool :=
  use testClassifier ;;
  match probe_load env with
  | Normal b => store testClassifier (VCascadeClassifier b) ;; mret b
  | Throw e => mthrow e
  end.

Definition new_testClassifier (env : InitEnv) : Init handle :=
  if classifier_constructs env
  then on_heap (new (VCascadeClassifier false))
  else mthrow (JsError "TypeError").

(** The [try] block.  It returns the value of [needsLoad] at its end.
    Only the constructor and [load] can throw, and both come before the
    assignment, so [needsLoad] is still [true] in the [catch]. *)
Definition probe_cascade (env : InitEnv) : Init bool :=
  try_catch
    (testClassifier ← new_testClassifier env;
     loaded ← on_heap (test_load env testClassifier);
     let needsLoad := negb loaded in
     on_heap (delete_native testClassifier) ;;
     mret needsLoad)
    true.

Definition fetch (env : InitEnv) (url : string) : Init Response :=
  fun w =>
    (fetch_cascade env, mkCvWorld (w_heap w) (w_files w) (w_requests w ++ [url])).

Definition FS_createDataFile (env : InitEnv) (name : string) (data : list Z)
  : Init unit :=
  fun w =>
    if createDataFile_ok env
    then (Fulfils tt, mkCvWorld (w_heap w) (w_files w ++ [(name, data)]) (w_requests w))
    else (Rejects (JsError "ErrnoError"), w).

Definition initOpenCV (env : InitEnv) : Init unit :=
  await (script_loaded env) ;;
  (match window_cv env with
   | CvMissing => mthrow (JsError "OpenCV.js failed to load")
   | CvFactory module => await module
   | CvPromise module => await module
   | CvObject hasMat runtimeInitialized =>
       if hasMat then mret tt
       else if runtimeInitialized then mret tt else await NeverSettles
   end : Init unit) ;;
  needsLoad ← probe_cascade env;
  (if (needsLoad : bool) then
     response ← fetch env HAAR_CASCADE_URL;
     (if negb (resp_ok response)
      then mthrow (JsError "Failed to fetch Haar cascade XML")
      else
        data ← await (arrayBuffer response);
        FS_createDataFile env HAAR_CASCADE_FILE data) : Init unit
   else mret tt) : Init unit.

(** The effect on mount: [.then(() => setStatus("ready"))] and
    [.catch(() => setStatus("error"))]; while the promise is pending the
    status stays [loading]. *)
Definition statusAfterInit (init : Async unit) : LibraryStatus :=
  match init with
  | Fulfils _ => ready
  | Rejects _ => error
  | NeverSettles => loading
  end.

(** * Properties *)

(** ** Rounding at quarters and halves *)

Lemma round_inject (a : Z) : Js.round (inject_Z a) = a.
Proof. unfold Js.round. cbn. Z.div_mod_to_equations. lia. Qed.

Lemma round_sub_quarter (a m : Z) :
  Js.round (inject_Z a - inject_Z m * (1 # 4)) = (4 * a - m + 2) / 4.
Proof. unfold Js.round. cbn. Z.div_mod_to_equations. lia. Qed.

Lemma round_add_half (a m : Z) :
  Js.round (inject_Z a + inject_Z m * (1 # 4) * 2) = (2 * a + m + 1) / 2.
Proof. unfold Js.round. cbn. Z.div_mod_to_equations. lia. Qed.

Lemma round_quarter (m : Z) :
  Js.round ((1 # 4) * inject_Z m) = (m + 2) / 4.
Proof. unfold Js.round. cbn. Z.div_mod_to_equations. lia. Qed.

(** ** The crop region *)

(** The region in integer arithmetic: with [m] the larger side, the
    origin is [x - m/4] rounded half up and the size [width + m/2] rounded
    half up, the first clamped at 0 and the second at what is left of the
    image. *)
Lemma cropRegion_formula (img : Image) (face : FaceRect) :
  let m := Z.max (width face) (height face) in
  let x0 := Z.max 0 ((4 * x face - m + 2) / 4) in
  let y0 := Z.max 0 ((4 * y face - m + 2) / 4) in
  cropRegion img face =
  {| cx := x0;
     cy := y0;
     cw := Z.min (naturalWidth img - x0) ((2 * width face + m + 1) / 2);
     ch := Z.min (naturalHeight img - y0) ((2 * height face + m + 1) / 2) |}.
Proof.
  unfold cropRegion, padding.
  now rewrite !round_sub_quarter, !round_add_half.
Qed.

(** C1.  For every image and every face rectangle the crop region lies
    inside the image: [0 <= x], [0 <= y], [x + w <= naturalWidth] and
    [y + h <= naturalHeight]; hence neither side of the crop is longer
    than the image's. *)
Theorem cropRegion_within_image (img : Image) (face : FaceRect) :
  let r := cropRegion img face in
  0 <= cx r /\ 0 <= cy r /\
  cx r + cw r <= naturalWidth img /\ cy r + ch r <= naturalHeight img /\
  cw r <= naturalWidth img /\ ch r <= naturalHeight img.
Proof.
  rewrite cropRegion_formula. cbv zeta. cbn [cx cy cw ch].
  generalize ((4 * x face - Z.max (width face) (height face) + 2) / 4).
  generalize ((4 * y face - Z.max (width face) (height face) + 2) / 4).
  generalize ((2 * width face + Z.max (width face) (height face) + 1) / 2).
  generalize ((2 * height face + Z.max (width face) (height face) + 1) / 2).
  lia.
Qed.




(** C5.  On a 100 by 100 image the face [{x:40, y:40, width:20, height:20}]
    gets padding 5 and the crop [{x:35, y:35, w:30, h:30}]. *)
Theorem cropRegion_example_100 :
  (padding (mkFaceRect 40 40 20 20) == 5)%Q /\
  cropRegion (mkImage 100 100) (mkFaceRect 40 40 20 20) = mkCropRegion 35 35 30 30.
Proof. split; reflexivity. Qed.

(** ** [cropFaces]: one crop per face, in order *)

(** The callback overwrites all of the canvas, so what it returns does not
    depend on the canvas it is handed. *)
Lemma cropFace_canvas (dom : Dom) (img : Image) (canvas : Canvas) (face : FaceRect) :
  cropFace dom img canvas face
  = (crop_canvas img face, toDataURL dom (crop_canvas img face)).
Proof. reflexivity. Qed.

Lemma map_shared_stateless {S A B : Type} (f : S -> A -> S * B) (g : A -> B) :
  (forall s a, snd (f s a) = g a) ->
  forall l s, snd (map_shared f s l) = map g l.
Proof.
  intros Hf l; induction l as [| a l IH]; intros s; cbn; [reflexivity |].
  specialize (Hf s a). destruct (f s a) as [s1 b]; cbn in Hf; subst b.
  specialize (IH s1). destruct (map_shared f s1 l) as [s2 bs]; cbn in *.
  now rewrite IH.
Qed.

Lemma cropFaces_with_context (dom : Dom) (img : Image) (faces : list FaceRect) :
  context2d dom = true ->
  cropFaces dom img faces
  = map (fun face => toDataURL dom (crop_canvas img face)) faces.
Proof.
  intros Hctx. unfold cropFaces. rewrite Hctx.
  apply map_shared_stateless. intros s a. now rewrite cropFace_canvas.
Qed.

(** C10.  Without a drawing context [cropFaces] returns the empty list,
    whatever the rectangles. *)
Theorem cropFaces_without_context (toURL : Canvas -> string) (img : Image)
  (faces : list FaceRect) :
  cropFaces (mkDom false toURL) img faces = [].
Proof. reflexivity. Qed.

(** ** Running the native-heap monad *)

Lemma bind_normal {A B} (m : Native A) (k : A -> Native B) h a h1 :
  m h = (Normal a, h1) -> (m ≫= k) h = k a h1.
Proof. intros H. unfold mbind, native_bind. now rewrite H. Qed.

Lemma bind_throw {A B} (m : Native A) (k : A -> Native B) h e h1 :
  m h = (Throw e, h1) -> (m ≫= k) h = (Throw e, h1).
Proof. intros H. unfold mbind, native_bind. now rewrite H. Qed.

(** The objects of a call sit behind the heap [h] it started from: the
    handle [length h + k] names position [k] of the objects added. *)
Lemma new_app (v : NativeVal) (h l : Heap) :
  new v (h ++ l)
  = (Normal (length h + length l)%nat, h ++ (l ++ [mkNativeObj v Live])).
Proof. unfold new. now rewrite length_app, app_assoc. Qed.

Lemma lookup_behind (h l : Heap) (k : nat) :
  (h ++ l) !! (length h + k)%nat = l !! k.
Proof.
  rewrite lookup_app_r by lia. f_equal. lia.
Qed.

Lemma use_app (h l : Heap) (k : nat) (v : NativeVal) :
  l !! k = Some (mkNativeObj v Live) ->
  use (length h + k)%nat (h ++ l) = (Normal v, h ++ l).
Proof. intros H. unfold use. now rewrite lookup_behind, H. Qed.

Lemma store_app (h l : Heap) (k : nat) (v0 v : NativeVal) :
  l !! k = Some (mkNativeObj v0 Live) ->
  store (length h + k)%nat v (h ++ l)
  = (Normal tt, h ++ <[k := mkNativeObj v Live]> l).
Proof.
  intros H. unfold store. now rewrite lookup_behind, H, insert_app_r.
Qed.

Lemma delete_app (h l : Heap) (k : nat) (v : NativeVal) :
  l !! k = Some (mkNativeObj v Live) ->
  delete_native (length h + k)%nat (h ++ l)
  = (Normal tt, h ++ <[k := mkNativeObj v Released]> l).
Proof.
  intros H. unfold delete_native. now rewrite lookup_behind, H, insert_app_r.
Qed.

Lemma extract_faces_run (h l : Heap) (k : nat) (rects : list CvRect) :
  l !! k = Some (mkNativeObj (VRectVector rects) Live) ->
  forall (todo i : nat) (acc : list FaceRect),
    (i + todo)%nat = length rects ->
    extract_faces (length h + k)%nat todo i acc (h ++ l)
    = (Normal (acc ++ map faceRect_of (drop i rects)), h ++ l).
Proof.
  intros Hk todo; induction todo as [| todo IH]; intros i acc Hlen; cbn.
  - rewrite drop_ge by lia. cbn. now rewrite app_nil_r.
  - destruct (lookup_lt_is_Some_2 rects i) as [r Hr]; [lia |].
    unfold rv_get.
    erewrite bind_normal; cycle 1.
    { erewrite bind_normal; [| eapply use_app; exact Hk].
      cbn. rewrite Hr. reflexivity. }
    rewrite IH by lia.
    rewrite (drop_S _ _ _ Hr). cbn. now rewrite <- app_assoc.
Qed.

Lemma rv_size_app (h l : Heap) (k : nat) (rects : list CvRect) :
  l !! k = Some (mkNativeObj (VRectVector rects) Live) ->
  rv_size (length h + k)%nat (h ++ l) = (Normal (length rects), h ++ l).
Proof.
  intros Hk. unfold rv_size.
  erewrite bind_normal; [| eapply use_app; exact Hk]. reflexivity.
Qed.

Lemma cvtColor_app (cv : CvEngine) (h l : Heap) (a b : nat) (va vb : NativeVal) :
  l !! a = Some (mkNativeObj va Live) ->
  l !! b = Some (mkNativeObj vb Live) ->
  cvtColor cv (length h + a)%nat (length h + b)%nat (h ++ l)
  = (if cvtColor_ok cv then Normal tt else Throw cv_exception, h ++ l).
Proof.
  intros Ha Hb. unfold cvtColor.
  erewrite bind_normal; [| eapply use_app; exact Ha].
  erewrite bind_normal; [| eapply use_app; exact Hb].
  now destruct (cvtColor_ok cv).
Qed.

Lemma equalizeHist_app (cv : CvEngine) (h l : Heap) (a b : nat) (va vb : NativeVal) :
  l !! a = Some (mkNativeObj va Live) ->
  l !! b = Some (mkNativeObj vb Live) ->
  equalizeHist cv (length h + a)%nat (length h + b)%nat (h ++ l)
  = (if equalizeHist_ok cv then Normal tt else Throw cv_exception, h ++ l).
Proof.
  intros Ha Hb. unfold equalizeHist.
  erewrite bind_normal; [| eapply use_app; exact Ha].
  erewrite bind_normal; [| eapply use_app; exact Hb].
  now destruct (equalizeHist_ok cv).
Qed.

Lemma classifier_load_app (cv : CvEngine) (h l : Heap) (c : nat) (v : NativeVal) :
  l !! c = Some (mkNativeObj v Live) ->
  classifier_load cv (length h + c)%nat (h ++ l)
  = if load_ok cv
    then (Normal (load_result cv),
          h ++ <[c := mkNativeObj (VCascadeClassifier (load_result cv)) Live]> l)
    else (Throw cv_exception, h ++ l).
Proof.
  intros Hc. unfold classifier_load.
  erewrite bind_normal; [| eapply use_app; exact Hc].
  destruct (load_ok cv); [| reflexivity].
  erewrite bind_normal; [| eapply store_app; exact Hc].
  reflexivity.
Qed.

Lemma detectMultiScale_app (cv : CvEngine) (h l : Heap) (c g f : nat)
  (vc vg vf : NativeVal) :
  l !! c = Some (mkNativeObj vc Live) ->
  l !! g = Some (mkNativeObj vg Live) ->
  l !! f = Some (mkNativeObj vf Live) ->
  detectMultiScale cv (length h + c)%nat (length h + g)%nat (length h + f)%nat
    (h ++ l)
  = match detectMultiScale_result cv with
    | Some rects =>
        (Normal tt, h ++ <[f := mkNativeObj (VRectVector rects) Live]> l)
    | None => (Throw cv_exception, h ++ l)
    end.
Proof.
  intros Hc Hg Hf. unfold detectMultiScale.
  erewrite bind_normal; [| eapply use_app; exact Hc].
  erewrite bind_normal; [| eapply use_app; exact Hg].
  erewrite bind_normal; [| eapply use_app; exact Hf].
  destruct (detectMultiScale_result cv) as [rects |]; [| reflexivity].
  eapply store_app; exact Hf.
Qed.

(** One statement of the adapter that completes normally: [tac] runs it
    on the current heap, the rest goes on from the heap it leaves. *)
Ltac run_with tac :=
  erewrite bind_normal; [| tac];
  cbn [length app Nat.add list_insert insert].

(** The adapter, path by path. *)
Lemma detectWithOpenCV_run (dom : Dom) (cv : CvEngine) (clock : Clock)
  (img : Image) (params : OpenCVParams) (h : Heap) :
  detectWithOpenCV dom cv clock img params h =
  let mat := mkNativeObj VMat Live in
  if context2d dom then
    if imread_ok cv then
      if new_Mat_ok cv then
        if cvtColor_ok cv && equalizeHist_ok cv then
          if new_RectVector_ok cv then
            if new_CascadeClassifier_ok cv then
              if load_ok cv then
                match detectMultiScale_result cv with
                | Some rects =>
                    (Normal (opencv_result dom clock img rects),
                     h ++ call_objects cv rects Released)
                | None => (Throw cv_exception, h ++ call_objects cv [] Live)
                end
              else
                (Throw cv_exception,
                 h ++ [mat; mat; mkNativeObj (VRectVector []) Live;
                       mkNativeObj (VCascadeClassifier false) Live])
            else
              (Throw cv_exception,
               h ++ [mat; mat; mkNativeObj (VRectVector []) Live])
          else (Throw cv_exception, h ++ [mat; mat])
        else (Throw cv_exception, h ++ [mat; mat])
      else (Throw cv_exception, h ++ [mat])
    else (Throw cv_exception, h)
  else (Throw (JsError "TypeError"), h).
Proof.
  cbv zeta. unfold detectWithOpenCV.
  destruct (context2d dom); [| reflexivity].
  rewrite (bind_normal _ _ h tt h) by reflexivity.
  unfold imread. destruct (imread_ok cv); [| reflexivity].
  rewrite <- (app_nil_r h) at 1.
  run_with ltac:(apply new_app).
  unfold new_Mat. destruct (new_Mat_ok cv); [| reflexivity].
  run_with ltac:(apply new_app).
  destruct (cvtColor_ok cv) eqn:Hcvt; cycle 1.
  { erewrite bind_throw; [reflexivity |].
    erewrite (cvtColor_app cv h _ 0 1) by reflexivity. now rewrite Hcvt. }
  erewrite bind_normal; cycle 1.
  { erewrite (cvtColor_app cv h _ 0 1) by reflexivity. now rewrite Hcvt. }
  destruct (equalizeHist_ok cv) eqn:Heq; cycle 1.
  { erewrite bind_throw; [reflexivity |].
    erewrite (equalizeHist_app cv h _ 1 1) by reflexivity. now rewrite Heq. }
  erewrite bind_normal; cycle 1.
  { erewrite (equalizeHist_app cv h _ 1 1) by reflexivity. now rewrite Heq. }
  cbn [andb].
  unfold new_RectVector. destruct (new_RectVector_ok cv); [| reflexivity].
  run_with ltac:(apply new_app).
  unfold new_CascadeClassifier.
  destruct (new_CascadeClassifier_ok cv); [| reflexivity].
  run_with ltac:(apply new_app).
  destruct (load_ok cv) eqn:Hload; cycle 1.
  { erewrite bind_throw; [reflexivity |].
    erewrite (classifier_load_app cv h _ 3) by reflexivity. now rewrite Hload. }
  erewrite bind_normal; cycle 1.
  { erewrite (classifier_load_app cv h _ 3) by reflexivity. now rewrite Hload. }
  cbn [length app Nat.add list_insert insert].
  destruct (detectMultiScale_result cv) as [rects |] eqn:Hdet; cycle 1.
  { erewrite bind_throw; [reflexivity |].
    erewrite (detectMultiScale_app cv h _ 3 1 2) by reflexivity.
    now rewrite Hdet. }
  erewrite bind_normal; cycle 1.
  { erewrite (detectMultiScale_app cv h _ 3 1 2) by reflexivity.
    now rewrite Hdet. }
  cbn [length app Nat.add list_insert insert].
  erewrite bind_normal; [| eapply (rv_size_app h _ 2); reflexivity].
  erewrite bind_normal;
    [| eapply (extract_faces_run h _ 2 rects); [reflexivity | lia] ].
  cbn [app drop].
  erewrite bind_normal; [| eapply (delete_app h _ 0); reflexivity].
  erewrite bind_normal; [| eapply (delete_app h _ 1); reflexivity].
  erewrite bind_normal; [| eapply (delete_app h _ 2); reflexivity].
  erewrite bind_normal; [| eapply (delete_app h _ 3); reflexivity].
  reflexivity.
Qed.

Lemma detectWithOpenCV_normal (dom : Dom) (cv : CvEngine) (clock : Clock)
  (img : Image) (params : OpenCVParams) (h h' : Heap) (r : DetectionResult) :
  detectWithOpenCV dom cv clock img params h = (Normal r, h') ->
  exists rects,
    detectMultiScale_result cv = Some rects /\
    r = opencv_result dom clock img rects /\
    h' = h ++ call_objects cv rects Released.
Proof.
  rewrite detectWithOpenCV_run. cbv zeta.
  destruct (context2d dom); [| discriminate].
  destruct (imread_ok cv); [| discriminate].
  destruct (new_Mat_ok cv); [| discriminate].
  destruct (cvtColor_ok cv && equalizeHist_ok cv); [| discriminate].
  destruct (new_RectVector_ok cv); [| discriminate].
  destruct (new_CascadeClassifier_ok cv); [| discriminate].
  destruct (load_ok cv); [| discriminate].
  destruct (detectMultiScale_result cv) as [rects |]; [| discriminate].
  intros [= <- <-]. now exists rects.
Qed.

Lemma detectWithFaceApi_normal (dom : Dom) (faceapi : FaceApiEngine)
  (clock : Clock) (img : Image) (params : FaceApiParams) (r : DetectionResult) :
  detectWithFaceApi dom faceapi clock img params = Normal r ->
  exists detections,
    faceapi = Normal detections /\
    faces r = map faceRect_of_detection detections /\
    croppedFaces r = cropFaces dom img (faces r).
Proof.
  unfold detectWithFaceApi. destruct faceapi as [detections | e]; [| discriminate].
  intros [= <-]. now exists detections.
Qed.

(** ** Release of the native objects *)

(** C8.  The claim has every native object released on every path of the
    call.  The code misses it when an engine call throws: here
    [detectMultiScale] does, the call ends without reaching its cleanup,
    and its four objects, the image matrix, the grayscale matrix, the
    rectangle vector and the classifier, are all still allocated. *)
Lemma native_objects_leak_on_throw :
  let dom := mkDom true (fun _ => "data:image/png;base64,") in
  let cv := mkCvEngine true true true true None true true true true in
  let run :=
    detectWithOpenCV dom cv (mkClock 0 1) (mkImage 100 100)
      (mkOpenCVParams (11 # 10) 9 80) [] in
  run = (Throw cv_exception, call_objects cv [] Live) /\
  released_from 0 (snd run) = false.
Proof. split; reflexivity. Qed.

(** The path that returns does reach the cleanup: whenever the classical
    adapter returns, from whatever heap it started, it has added exactly
    four objects to the heap, the image matrix, the grayscale matrix, the
    rectangle vector and the classifier, and each of them has been
    released. *)
Theorem native_objects_released_on_return (dom : Dom) (cv : CvEngine)
  (clock : Clock) (img : Image) (params : OpenCVParams) (h h' : Heap)
  (r : DetectionResult)
  (Hrun : detectWithOpenCV dom cv clock img params h = (Normal r, h')) :
  (exists rects, h' = h ++ call_objects cv rects Released) /\
  released_from (length h) h' = true.
Proof.
  destruct (detectWithOpenCV_normal _ _ _ _ _ _ _ _ Hrun)
    as (rects & _ & _ & ->).
  split; [now exists rects |].
  unfold released_from. now rewrite drop_app_length.
Qed.

Lemma native_objects_released_on_return_witness :
  let dom := mkDom true (fun _ => "data:image/png;base64,") in
  let cv := mkCvEngine true true true true (Some [mkCvRect 40 40 20 20]) true true true true in
  let h := [mkNativeObj VMat Released] in
  let run :=
    detectWithOpenCV dom cv (mkClock 0 1) (mkImage 100 100)
      (mkOpenCVParams (11 # 10) 9 80) h in
  (exists r, fst run = Normal r) /\
  (exists rects, snd run = h ++ call_objects cv rects Released) /\
  released_from (length h) (snd run) = true.
Proof.
  intros dom cv h run. split; [eexists; reflexivity |].
  apply (native_objects_released_on_return dom cv (mkClock 0 1) (mkImage 100 100)
           (mkOpenCVParams (11 # 10) 9 80) h (snd run)
           (opencv_result dom (mkClock 0 1) (mkImage 100 100) [mkCvRect 40 40 20 20])).
  reflexivity.
Defined.

(** ** Crops and faces of a result *)

(** C9.  With a drawing context, [cropFaces] returns one image per
    rectangle, in the order of the rectangles: the lengths agree and the
    crop at position [i] is the encoding of the canvas that holds the crop
    region of the rectangle at position [i].  So it is with the crops and
    the faces of every result that either adapter returns. *)
Theorem croppedFaces_one_per_face (dom : Dom) (img : Image)
  (Hctx : context2d dom = true) :
  let crop := fun face => toDataURL dom (crop_canvas img face) in
  (forall faces : list FaceRect,
     length (cropFaces dom img faces) = length faces /\
     forall i : nat, cropFaces dom img faces !! i = crop <$> faces !! i) /\
  (forall cv clock params h h' r,
     detectWithOpenCV dom cv clock img params h = (Normal r, h') ->
     length (croppedFaces r) = length (faces r) /\
     forall i : nat, croppedFaces r !! i = crop <$> faces r !! i) /\
  (forall faceapi clock params r,
     detectWithFaceApi dom faceapi clock img params = Normal r ->
     length (croppedFaces r) = length (faces r) /\
     forall i : nat, croppedFaces r !! i = crop <$> faces r !! i).
Proof.
  intros crop.
  assert (Hcrop : forall faces : list FaceRect,
             length (cropFaces dom img faces) = length faces /\
             forall i : nat, cropFaces dom img faces !! i = crop <$> faces !! i).
  { intros faces. rewrite cropFaces_with_context by assumption. split.
    - apply length_map.
    - intros i. apply list_lookup_fmap. }
  split; [exact Hcrop |]. split.
  - intros cv clock params h h' r Hrun.
    destruct (detectWithOpenCV_normal _ _ _ _ _ _ _ _ Hrun) as (rects & _ & -> & _).
    apply Hcrop.
  - intros faceapi clock params r Hrun.
    destruct (detectWithFaceApi_normal _ _ _ _ _ _ Hrun) as (ds & _ & _ & ->).
    apply Hcrop.
Qed.

Lemma croppedFaces_one_per_face_witness :
  let dom := mkDom true (fun c => if (canvas_width c =? 30)%Z then "a" else "b") in
  let img := mkImage 100 100 in
  let faces := [mkFaceRect 40 40 20 20; mkFaceRect 10 10 2 2] in
  context2d dom = true /\
  cropFaces dom img faces = ["a"; "b"] /\
  length (cropFaces dom img faces) = length faces /\
  cropFaces dom img faces !! 1%nat
  = (fun face => toDataURL dom (crop_canvas img face)) <$> faces !! 1%nat.
Proof.
  intros dom img faces. split; [reflexivity |]. split; [reflexivity |].
  destruct (croppedFaces_one_per_face dom img eq_refl) as [Hcrop _].
  destruct (Hcrop faces) as [Hlen Hnth].
  split; [exact Hlen | exact (Hnth 1%nat)].
Defined.

(** ** The rectangles the adapters produce *)

Lemma round_nonneg (q : Q) : (0 <= q)%Q -> 0 <= Js.round q.
Proof.
  intros Hq. unfold Js.round.
  change 0 with (Qfloor 0). apply Qfloor_resp_le.
  apply Qle_trans with q; [exact Hq |].
  rewrite <- (Qplus_0_r q) at 1. now apply Qplus_le_r.
Qed.

Lemma faceRect_of_nonneg (r : CvRect) :
  nonneg_cvrect r -> nonneg_rect (faceRect_of r).
Proof. intros H; exact H. Qed.

Lemma faceRect_of_detection_nonneg (d : Detection) :
  nonneg_box (box d) -> nonneg_rect (faceRect_of_detection d).
Proof.
  intros (Hx & Hy & Hw & Hh). repeat split; cbn; now apply round_nonneg.
Qed.

(** C7, as stated, fails for a box that starts left of the image: the
    neural adapter rounds [-4.2] to [-4] and keeps it. *)
Lemma neural_rect_negative :
  faces <$> result_of
    (detectWithFaceApi (mkDom true (fun _ => "data:image/png;base64,"))
       (Normal [mkDetection (mkBox (- (21 # 5)) 10 50 50)]) (mkClock 0 1)
       (mkImage 100 100) (mkFaceApiParams 704 (3 # 10)))
  = Some [mkFaceRect (-4) 10 50 50] /\
  ~ nonneg_rect (mkFaceRect (-4) 10 50 50).
Proof.
  split; [reflexivity |]. intros (Hx & _). cbn in Hx. lia.
Qed.

(** C7, amended.  The rectangles of the classical adapter are the
    engine's integer rectangles, field for field, and those of the neural
    adapter are the engine's boxes with every coordinate rounded to the
    nearest integer, whatever the sign of the coordinates: the adapters
    do not clamp.  When the engine's rectangles or boxes have no negative
    coordinate, neither have the adapter's. *)
Theorem adapter_rects_rounded (dom : Dom) (cv : CvEngine)
  (faceapi : FaceApiEngine) (c1 c2 : Clock) (img : Image)
  (p1 : OpenCVParams) (p2 : FaceApiParams) (h : Heap) :
  (forall r h',
     detectWithOpenCV dom cv c1 img p1 h = (Normal r, h') ->
     exists rects,
       detectMultiScale_result cv = Some rects /\
       faces r = map faceRect_of rects /\
       (Forall nonneg_cvrect rects -> Forall nonneg_rect (faces r))) /\
  (forall r,
     detectWithFaceApi dom faceapi c2 img p2 = Normal r ->
     exists detections,
       faceapi = Normal detections /\
       faces r = map faceRect_of_detection detections /\
       (Forall (fun d => nonneg_box (box d)) detections ->
        Forall nonneg_rect (faces r))).
Proof.
  split.
  - intros r h' Hrun.
    destruct (detectWithOpenCV_normal _ _ _ _ _ _ _ _ Hrun) as (rects & Hdet & -> & _).
    exists rects. split; [exact Hdet |]. split; [reflexivity |].
    intros Hcv. cbn.
    apply Forall_fmap. eapply Forall_impl; [exact Hcv |].
    exact faceRect_of_nonneg.
  - intros r Hrun.
    destruct (detectWithFaceApi_normal _ _ _ _ _ _ Hrun) as (ds & Hfaceapi & Hfaces & _).
    exists ds. split; [exact Hfaceapi |]. split; [exact Hfaces |].
    intros Hfa. rewrite Hfaces.
    apply Forall_fmap. eapply Forall_impl; [exact Hfa |].
    exact faceRect_of_detection_nonneg.
Qed.

(** The theorem at two engines: one whose rectangles and boxes are not
    negative, and one whose rectangle and box start left of the image,
    where the adapters keep [-3] and round [-4.2] to [-4]. *)
Lemma adapter_rects_rounded_witness :
  let dom := mkDom true (fun _ => "data:image/png;base64,") in
  let img := mkImage 100 100 in
  let p1 := mkOpenCVParams (11 # 10) 9 80 in
  let p2 := mkFaceApiParams 704 (3 # 10) in
  let engine := fun rects =>
    mkCvEngine true true true true (Some rects) true true true true in
  let r1 := opencv_result dom (mkClock 0 1) img [mkCvRect 40 40 20 20] in
  let r1' := opencv_result dom (mkClock 0 1) img [mkCvRect (-3) 40 20 20] in
  (fst (detectWithOpenCV dom (engine [mkCvRect 40 40 20 20]) (mkClock 0 1) img p1 [])
   = Normal r1 /\
   faces r1 = [mkFaceRect 40 40 20 20] /\
   Forall nonneg_rect (faces r1)) /\
  (fst (detectWithOpenCV dom (engine [mkCvRect (-3) 40 20 20]) (mkClock 0 1) img p1 [])
   = Normal r1' /\
   exists rects,
     Some [mkCvRect (-3) 40 20 20] = Some rects /\
     faces r1' = map faceRect_of rects) /\
  (exists r2 detections,
     detectWithFaceApi dom
       (Normal [mkDetection (mkBox (79 # 2) (201 # 5) (41 # 2) (99 # 5))])
       (mkClock 0 1) img p2 = Normal r2 /\
     faces r2 = [mkFaceRect 40 40 21 20] /\
     faces r2 = map faceRect_of_detection detections /\
     Forall nonneg_rect (faces r2)) /\
  (exists r2 detections,
     detectWithFaceApi dom
       (Normal [mkDetection (mkBox (- (21 # 5)) 10 50 50)])
       (mkClock 0 1) img p2 = Normal r2 /\
     faces r2 = [mkFaceRect (-4) 10 50 50] /\
     faces r2 = map faceRect_of_detection detections).
Proof.
  intros dom img p1 p2 engine r1 r1'.
  split; [| split; [| split] ].
  - destruct (adapter_rects_rounded dom (engine [mkCvRect 40 40 20 20])
                (Throw (JsNumber 0)) (mkClock 0 1) (mkClock 0 1) img p1 p2 [])
      as [H1 _].
    destruct (H1 r1 _ eq_refl) as (rects & Hdet & _ & Hnonneg).
    injection Hdet as <-.
    split; [reflexivity |]. split; [reflexivity |].
    apply Hnonneg. repeat constructor; cbn; lia.
  - destruct (adapter_rects_rounded dom (engine [mkCvRect (-3) 40 20 20])
                (Throw (JsNumber 0)) (mkClock 0 1) (mkClock 0 1) img p1 p2 [])
      as [H1 _].
    destruct (H1 r1' _ eq_refl) as (rects & Hdet & Hfaces & _).
    split; [reflexivity |]. exists rects. now split.
  - destruct (adapter_rects_rounded dom (engine [])
                (Normal [mkDetection (mkBox (79 # 2) (201 # 5) (41 # 2) (99 # 5))])
                (mkClock 0 1) (mkClock 0 1) img p1 p2 [])
      as [_ H2].
    destruct (H2 _ eq_refl) as (ds & Hfaceapi & Hfaces & Hnonneg).
    eexists. exists ds. split; [reflexivity |]. split; [reflexivity |].
    split; [exact Hfaces |].
    apply Hnonneg. injection Hfaceapi as <-.
    repeat constructor; cbn; discriminate.
  - destruct (adapter_rects_rounded dom (engine [])
                (Normal [mkDetection (mkBox (- (21 # 5)) 10 50 50)])
                (mkClock 0 1) (mkClock 0 1) img p1 p2 [])
      as [_ H2].
    destruct (H2 _ eq_refl) as (ds & _ & Hfaces & _).
    eexists. exists ds. split; [reflexivity |]. split; [reflexivity |].
    exact Hfaces.
Defined.

(** ** [runDetection] *)

Lemma runDetection_state (env : RunEnv) (s : UiState) (h : Heap) (img : Image) :
  imageRef env = Some img ->
  runDetection env s h =
  (let opencvRes := fst (opencvBranch env img h) in
   let faceApiRes := faceApiBranch env img in
   {| opencvResult := result_of opencvRes;
      faceApiResult := result_of faceApiRes;
      isDetecting := false;
      opencvError := error_of opencvRes;
      faceApiError := error_of faceApiRes |},
   snd (opencvBranch env img h)).
Proof.
  intros Himg. unfold runDetection. rewrite Himg.
  destruct (opencvBranch env img h) as [[v1 | e1] h1];
    destruct (faceApiBranch env img) as [v2 | e2]; reflexivity.
Qed.

Lemma error_text_truthy (reason : JsValue) : Js.truthy (error_text reason) = true.
Proof.
  destruct reason as [m | n]; cbn; [| reflexivity].
  destruct m; reflexivity.
Qed.

Lemma renderPanel_error (reason : JsValue) (result : option DetectionResult) :
  renderPanel (Some (error_text reason)) result = ShowError (error_text reason).
Proof. unfold renderPanel. now rewrite error_text_truthy. Qed.

Lemma one_of_settled {A} (c : Completion A) : one_of (result_of c) (error_of c).
Proof. destruct c; [left | right]; split; cbn; eauto. Qed.

(** C3.  After a detection run on an image, each engine has exactly one
    of result and error in the state, and each engine's pair is what its
    own branch settled to: the result if the branch returned, else the
    message of what it threw.  So when one branch fails and the other
    returns, the state holds the failing engine's message next to the
    other engine's result, and the panels show just that. *)
Theorem runDetection_result_or_error (env : RunEnv) (s : UiState) (h : Heap)
  (img : Image) (Himg : imageRef env = Some img) :
  let s' := fst (runDetection env s h) in
  let opencvRes := fst (opencvBranch env img h) in
  let faceApiRes := faceApiBranch env img in
  one_of (opencvResult s') (opencvError s') /\
  one_of (faceApiResult s') (faceApiError s') /\
  (opencvResult s' = result_of opencvRes /\ opencvError s' = error_of opencvRes) /\
  (faceApiResult s' = result_of faceApiRes /\ faceApiError s' = error_of faceApiRes) /\
  (forall reason value,
     opencvRes = Throw reason -> faceApiRes = Normal value ->
     opencvResult s' = None /\ opencvError s' = Some (error_text reason) /\
     faceApiResult s' = Some value /\ faceApiError s' = None /\
     opencvPanel s' = ShowError (error_text reason) /\
     faceApiPanel s' = renderResult (Some value)) /\
  (forall value reason,
     opencvRes = Normal value -> faceApiRes = Throw reason ->
     opencvResult s' = Some value /\ opencvError s' = None /\
     faceApiResult s' = None /\ faceApiError s' = Some (error_text reason) /\
     opencvPanel s' = renderResult (Some value) /\
     faceApiPanel s' = ShowError (error_text reason)).
Proof.
  rewrite (runDetection_state env s h img Himg). cbn zeta. cbn [fst].
  unfold opencvPanel, faceApiPanel. cbn [opencvResult opencvError faceApiResult faceApiError].
  split; [apply one_of_settled |]. split; [apply one_of_settled |].
  split; [now split |]. split; [now split |]. split.
  - intros reason value -> ->. cbn [result_of error_of].
    rewrite renderPanel_error. now repeat split.
  - intros value reason -> ->. cbn [result_of error_of].
    rewrite renderPanel_error. now repeat split.
Qed.

Lemma runDetection_result_or_error_witness :
  let dom := mkDom true (fun _ => "data:image/png;base64,") in
  let img := mkImage 100 100 in
  let env :=
    mkRunEnv dom (Some img) error ready
      (mkOpenCVParams (11 # 10) 9 80) (mkFaceApiParams 704 (3 # 10))
      (mkCvEngine true true true true (Some []) true true true true)
      (Normal [mkDetection (mkBox 40 40 20 20)])
      (mkClock 0 1) (mkClock 0 2) in
  let s' := fst (runDetection env initialUi []) in
  imageRef env = Some img /\
  one_of (opencvResult s') (opencvError s') /\
  one_of (faceApiResult s') (faceApiError s') /\
  opencvError s' = Some "OpenCV not loaded" /\
  (faces <$> faceApiResult s') = Some [mkFaceRect 40 40 20 20] /\
  opencvPanel s' = ShowError "OpenCV not loaded".
Proof.
  intros dom img env s'. split; [reflexivity |].
  destruct (runDetection_result_or_error env initialUi [] img eq_refl)
    as (H1 & H2 & _ & _ & H3 & _).
  split; [exact H1 |]. split; [exact H2 |].
  destruct (H3 (JsError "OpenCV not loaded") _ eq_refl eq_refl)
    as (_ & He & Hr & _ & Hp & _).
  split; [exact He |]. split; [| exact Hp].
  unfold s'. now rewrite Hr.
Defined.

(** ** No faces *)

Lemma cropFaces_nil (dom : Dom) (img : Image) : cropFaces dom img [] = [].
Proof. unfold cropFaces. now destruct (context2d dom). Qed.

Lemma opencvBranch_normal (env : RunEnv) (img : Image) (h h' : Heap)
  (r : DetectionResult) :
  opencvBranch env img h = (Normal r, h') ->
  croppedFaces r = cropFaces (dom env) img (faces r).
Proof.
  unfold opencvBranch. destruct (is_ready (opencvStatus env)); [| discriminate].
  intros Hrun.
  now destruct (detectWithOpenCV_normal _ _ _ _ _ _ _ _ Hrun) as (rects & _ & -> & _).
Qed.

Lemma faceApiBranch_normal (env : RunEnv) (img : Image) (r : DetectionResult) :
  faceApiBranch env img = Normal r ->
  croppedFaces r = cropFaces (dom env) img (faces r).
Proof.
  unfold faceApiBranch. destruct (is_ready (faceApiStatus env)); [| discriminate].
  intros Hrun.
  now destruct (detectWithFaceApi_normal _ _ _ _ _ _ Hrun) as (ds & _ & _ & ->).
Qed.

(** The panel of a result without faces: the time, a count of 0, no grid
    of crops, and the paragraph "No faces detected". *)
Lemma renderResult_no_faces (r : DetectionResult) :
  faces r = [] -> croppedFaces r = [] ->
  renderResult (Some r)
  = ShowResult {| timeBadge := processingTime r;
                  faceCount := 0;
                  croppedGrid := None;
                  noFacesDetected := true |}.
Proof. intros Hf Hc. unfold renderResult. now rewrite Hf, Hc. Qed.

(** C6.  When a run on an image leaves an engine with a result that has
    no faces, that result has no crops either, and the engine's panel
    shows the result with "No faces detected", not an error. *)
Theorem no_faces_detected_shown (env : RunEnv) (s : UiState) (h : Heap)
  (img : Image) (Himg : imageRef env = Some img) :
  let s' := fst (runDetection env s h) in
  let view := fun r =>
    ShowResult {| timeBadge := processingTime r;
                  faceCount := 0;
                  croppedGrid := None;
                  noFacesDetected := true |} in
  (forall r, opencvResult s' = Some r -> faces r = [] ->
     croppedFaces r = [] /\ opencvError s' = None /\ opencvPanel s' = view r) /\
  (forall r, faceApiResult s' = Some r -> faces r = [] ->
     croppedFaces r = [] /\ faceApiError s' = None /\ faceApiPanel s' = view r).
Proof.
  rewrite (runDetection_state env s h img Himg). cbn zeta. cbn [fst].
  unfold opencvPanel, faceApiPanel.
  cbn [opencvResult opencvError faceApiResult faceApiError].
  split.
  - destruct (opencvBranch env img h) as [[v | e] h'] eqn:Hrun;
      cbn [fst result_of error_of]; [| discriminate].
    intros r [= <-] Hfaces.
    assert (Hcrops : croppedFaces v = []).
    { rewrite (opencvBranch_normal _ _ _ _ _ Hrun), Hfaces. apply cropFaces_nil. }
    split; [exact Hcrops |]. split; [reflexivity |].
    now apply renderResult_no_faces.
  - destruct (faceApiBranch env img) as [v | e] eqn:Hrun;
      cbn [result_of error_of]; [| discriminate].
    intros r [= <-] Hfaces.
    assert (Hcrops : croppedFaces v = []).
    { rewrite (faceApiBranch_normal _ _ _ Hrun), Hfaces. apply cropFaces_nil. }
    split; [exact Hcrops |]. split; [reflexivity |].
    now apply renderResult_no_faces.
Qed.

Lemma no_faces_detected_shown_witness :
  let dom := mkDom true (fun _ => "data:image/png;base64,") in
  let img := mkImage 100 100 in
  let env :=
    mkRunEnv dom (Some img) ready ready
      (mkOpenCVParams (11 # 10) 9 80) (mkFaceApiParams 704 (3 # 10))
      (mkCvEngine true true true true (Some []) true true true true)
      (Normal [])
      (mkClock 0 1) (mkClock 0 2) in
  let s' := fst (runDetection env initialUi []) in
  let r1 := mkDetectionResult [] [] (1 - 0)%Q in
  let r2 := mkDetectionResult [] [] (2 - 0)%Q in
  imageRef env = Some img /\
  opencvResult s' = Some r1 /\
  faceApiResult s' = Some r2 /\
  opencvPanel s' = ShowResult (mkResultView (1 - 0)%Q 0 None true) /\
  faceApiPanel s' = ShowResult (mkResultView (2 - 0)%Q 0 None true).
Proof.
  intros dom img env s' r1 r2. split; [reflexivity |].
  split; [reflexivity |]. split; [reflexivity |].
  destruct (no_faces_detected_shown env initialUi [] img eq_refl) as [H1 H2].
  destruct (H1 r1 eq_refl eq_refl) as (_ & _ & Hp1).
  destruct (H2 r2 eq_refl eq_refl) as (_ & _ & Hp2).
  split; [exact Hp1 | exact Hp2].
Defined.

(** ** The script loader *)

Lemma settle_lookup (ps : list (string * PromiseState)) (p q : nat)
  (to : PromiseState) (src : string) (st : PromiseState) :
  ps !! q = Some (src, st) ->
  settle p to ps !! q
  = Some (src, if decide (p = q)
               then match st with Pending => to | _ => st end
               else st).
Proof.
  intros Hq. unfold settle.
  destruct (decide (p = q)) as [-> | Hne].
  - rewrite Hq. destruct st; try exact Hq.
    apply list_lookup_insert_eq. eapply lookup_lt_Some, Hq.
  - destruct (ps !! p) as [[src' [| |]] |]; try exact Hq.
    now rewrite list_lookup_insert_ne.
Qed.

Lemma settle_lookup_inv (ps : list (string * PromiseState)) (p q : nat)
  (to : PromiseState) (src : string) (st : PromiseState) :
  settle p to ps !! q = Some (src, st) ->
  exists st0, ps !! q = Some (src, st0) /\
              st = if decide (p = q)
                   then match st0 with Pending => to | _ => st0 end
                   else st0.
Proof.
  intros Hq.
  destruct (ps !! q) as [[src0 st0] |] eqn:Hold.
  - rewrite (settle_lookup _ _ _ _ _ _ Hold) in Hq.
    injection Hq as <- <-. now exists st0.
  - exfalso. apply lookup_ge_None in Hold.
    assert (Hlen : length (settle p to ps) = length ps).
    { unfold settle. destruct (ps !! p) as [[? [| |]] |]; try reflexivity.
      apply length_insert. }
    apply lookup_lt_Some in Hq. lia.
Qed.

Lemma settle_fst (ps : list (string * PromiseState)) (p : nat) (to : PromiseState) :
  map fst (settle p to ps) = map fst ps.
Proof.
  unfold settle. destruct (ps !! p) as [[src [| |]] |] eqn:Hp; try reflexivity.
  change (fst <$> <[p := (src, to)]> ps = fst <$> ps).
  rewrite list_fmap_insert. apply list_insert_id.
  now rewrite list_lookup_fmap, Hp.
Qed.

Lemma loader_inv_initial : loader_inv initialLoader.
Proof.
  split.
  - intros src p H. cbn in H. now rewrite lookup_empty in H.
  - intros p src st H. cbn in H. now rewrite lookup_nil in H.
Qed.

Lemma loader_inv_step (l l' : Loader) :
  loader_step l l' -> loader_inv l -> loader_inv l'.
Proof.
  intros Hstep [Hmemo Hscript].
  destruct Hstep as [src l | p src l Hp | p src l Hp].
  - (* a call *)
    unfold loadScript.
    destruct (scriptLoadPromises l !! src) as [existing |] eqn:Hsrc;
      [now split |].
    split; cbn.
    + intros src' p'. rewrite lookup_insert.
      destruct (decide (src = src')) as [<- | Hne].
      * intros [= <-]. exists Pending.
        split; [| discriminate].
        rewrite lookup_app_r by lia. now rewrite Nat.sub_diag.
      * intros H. destruct (Hmemo _ _ H) as (st & Hst & Hrej).
        exists st. split; [| exact Hrej]. now apply lookup_app_l_Some.
    + intros p' src' st H Hrej.
      apply lookup_app_Some in H as [H | [Hge H]].
      * specialize (Hscript _ _ _ H Hrej).
        rewrite lookup_insert_ne; [exact Hscript |].
        intros <-. congruence.
      * destruct (p' - length (scripts l))%nat as [| k] eqn:Hk; [| discriminate].
        injection H as <- <-.
        replace p' with (length (scripts l)) by lia.
        apply lookup_insert_eq.
  - (* the load event *)
    split; cbn.
    + intros src' p' H. destruct (Hmemo _ _ H) as (st & Hst & Hrej).
      rewrite (settle_lookup _ _ _ _ _ _ Hst). eexists. split; [reflexivity |].
      destruct (decide (p = p')); [| exact Hrej]. now destruct st.
    + intros p' src' st H Hrej.
      apply settle_lookup_inv in H as (st0 & H0 & ->).
      apply (Hscript _ _ _ H0).
      destruct (decide (p = p')); [| exact Hrej]. now destruct st0.
  - (* the error event *)
    split; cbn.
    + intros src' p' H.
      apply lookup_delete_Some in H as [Hne H].
      destruct (Hmemo _ _ H) as (st & Hst & Hrej).
      rewrite (settle_lookup _ _ _ _ _ _ Hst). eexists. split; [reflexivity |].
      destruct (decide (p = p')) as [-> | _]; [| exact Hrej]. congruence.
    + intros p' src' st H Hrej.
      apply settle_lookup_inv in H as (st0 & H0 & ->).
      destruct (decide (p = p')) as [-> | Hne].
      * rewrite Hp in H0. injection H0 as <- <-. now contradiction Hrej.
      * rewrite lookup_delete_ne; [now apply (Hscript _ _ _ H0) |].
        intros <-.
        assert (H1 := Hscript _ _ _ Hp ltac:(discriminate)).
        assert (H2 := Hscript _ _ _ H0 Hrej). congruence.
Qed.

Lemma loader_inv_steps (l l' : Loader) :
  rtc loader_step l l' -> loader_inv l -> loader_inv l'.
Proof. induction 1; eauto using loader_inv_step. Qed.

Lemma reachable_inv (l : Loader) : reachable l -> loader_inv l.
Proof. intros H. exact (loader_inv_steps _ _ H loader_inv_initial). Qed.

(** A script keeps its place and its URL, and a rejected promise stays
    rejected. *)
Lemma step_script (l l' : Loader) (p : nat) (src : string) (st : PromiseState) :
  loader_step l l' ->
  scripts l !! p = Some (src, st) ->
  exists st', scripts l' !! p = Some (src, st') /\ (st = Rejected -> st' = Rejected).
Proof.
  intros Hstep Hp.
  destruct Hstep as [src0 l | q src0 l Hq | q src0 l Hq].
  - unfold loadScript. destruct (scriptLoadPromises l !! src0); cbn.
    + now exists st.
    + exists st. split; [| easy]. now apply lookup_app_l_Some.
  - cbn. rewrite (settle_lookup _ _ _ _ _ _ Hp). eexists. split; [reflexivity |].
    intros ->. now destruct (decide (q = p)).
  - cbn. rewrite (settle_lookup _ _ _ _ _ _ Hp). eexists. split; [reflexivity |].
    intros ->. now destruct (decide (q = p)).
Qed.

Lemma steps_script (l l' : Loader) (p : nat) (src : string) (st : PromiseState) :
  rtc loader_step l l' ->
  scripts l !! p = Some (src, st) ->
  exists st', scripts l' !! p = Some (src, st') /\ (st = Rejected -> st' = Rejected).
Proof.
  intros Hsteps. revert st.
  induction Hsteps as [l | l l1 l' Hstep _ IH]; intros st Hp.
  - now exists st.
  - destruct (step_script _ _ _ _ _ Hstep Hp) as (st1 & Hp1 & Hrej1).
    destruct (IH _ Hp1) as (st' & Hp' & Hrej').
    exists st'. split; [exact Hp' |]. auto.
Qed.

Lemma fetch_count_app (src : string) (l : Loader) (more : list (string * PromiseState))
  (ps : gmap string nat) :
  fetch_count src (mkLoader ps (scripts l ++ more))
  = (fetch_count src l + length (filter (fun u => u = src) (map fst more)))%nat.
Proof.
  unfold fetch_count, fetches; cbn.
  now rewrite map_app, filter_app, length_app.
Qed.

(** A step fetches [src] only through a call for [src] that finds no
    entry. *)
Lemma step_fetch_count (l l' : Loader) (src : string) :
  loader_step l l' ->
  is_Some (scriptLoadPromises l !! src) ->
  fetch_count src l' = fetch_count src l.
Proof.
  intros Hstep [p Hsrc].
  destruct Hstep as [src0 l | q src0 l Hq | q src0 l Hq].
  - unfold loadScript.
    destruct (scriptLoadPromises l !! src0) as [existing |] eqn:H0; cbn [snd];
      [reflexivity |].
    rewrite fetch_count_app. cbn [map fst].
    rewrite filter_cons_False, filter_nil; [cbn; lia |].
    intros ->. congruence.
  - unfold fetch_count, fetches; cbn. now rewrite settle_fst.
  - unfold fetch_count, fetches; cbn. now rewrite settle_fst.
Qed.

Lemma promise_state_script (l : Loader) (p : nat) (st : PromiseState) :
  promise_state l p = Some st -> exists src, scripts l !! p = Some (src, st).
Proof.
  unfold promise_state. destruct (scripts l !! p) as [[src st0] |]; [| discriminate].
  intros [= <-]. now exists src.
Qed.

(** While the promise of a load is not rejected, the memo table keeps it
    and nothing fetches its URL again. *)
Lemma shared_while_not_rejected (l1 l2 : Loader) (src : string) (p : nat)
  (st1 : PromiseState) :
  rtc loader_step l1 l2 ->
  loader_inv l1 ->
  scripts l1 !! p = Some (src, st1) ->
  not_rejected l2 p ->
  scriptLoadPromises l2 !! src = Some p /\
  fetch_count src l2 = fetch_count src l1.
Proof.
  intros Hsteps. revert st1.
  induction Hsteps as [l | l l1 l2 Hstep Hsteps IH]; intros st1 Hinv Hp Hlive.
  - split; [| reflexivity].
    apply (proj2 Hinv _ _ _ Hp).
    destruct Hlive as [H | H]; apply promise_state_script in H as [src' H];
      rewrite Hp in H; injection H as _ ->; discriminate.
  - destruct (step_script _ _ _ _ _ Hstep Hp) as (st' & Hp' & Hrej').
    destruct (IH _ (loader_inv_step _ _ Hstep Hinv) Hp' Hlive) as [Hmemo Hcount].
    split; [exact Hmemo |]. rewrite Hcount.
    apply step_fetch_count; [exact Hstep |].
    exists p. apply (proj2 Hinv _ _ _ Hp).
    intros ->.
    destruct (steps_script _ _ _ _ _ Hsteps Hp') as (st2 & Hp2 & Hrej2).
    rewrite (Hrej2 (Hrej' eq_refl)) in Hp2.
    destruct Hlive as [H | H]; apply promise_state_script in H as [src' H];
      rewrite Hp2 in H; discriminate.
Qed.

Lemma loadScript_script (l l1 : Loader) (src : string) (p1 : nat) :
  loader_inv l ->
  loadScript src l = (p1, l1) ->
  exists st, scripts l1 !! p1 = Some (src, st).
Proof.
  intros Hinv. unfold loadScript.
  destruct (scriptLoadPromises l !! src) as [existing |] eqn:Hsrc; intros [= <- <-].
  - destruct (proj1 Hinv _ _ Hsrc) as (st & Hst & _). now exists st.
  - exists Pending. cbn. rewrite lookup_app_r by lia. now rewrite Nat.sub_diag.
Qed.

(** C4.  Take a call of [loadScript] in any state the loader can be in,
    and a second call for the same URL after any number of further calls
    and script events, at a time when the promise the first call returned
    is pending or fulfilled.  The second call returns that same promise
    and leaves the loader as it is, and between the two calls nothing
    fetched the URL.  If the first call found no entry it appended one
    script, so that from before the first call to after the second the
    URL was fetched exactly once. *)
Theorem loadScript_shared (l l1 l2 : Loader) (src : string) (p1 : nat)
  (Hreach : reachable l)
  (Hcall : loadScript src l = (p1, l1))
  (Hsteps : rtc loader_step l1 l2)
  (Hlive : not_rejected l2 p1) :
  loadScript src l2 = (p1, l2) /\
  fetch_count src l2 = fetch_count src l1 /\
  (scriptLoadPromises l !! src = None ->
   fetches l1 = fetches l ++ [src] /\
   fetch_count src (snd (loadScript src l2)) = S (fetch_count src l)).
Proof.
  assert (Hinv := reachable_inv l Hreach).
  assert (Hstep : loader_step l l1).
  { replace l1 with (snd (loadScript src l)) by now rewrite Hcall.
    constructor. }
  assert (Hinv1 := loader_inv_step _ _ Hstep Hinv).
  destruct (loadScript_script _ _ _ _ Hinv Hcall) as (st1 & Hp1).
  destruct (shared_while_not_rejected _ _ _ _ _ Hsteps Hinv1 Hp1 Hlive)
    as [Hmemo Hcount].
  assert (Hsecond : loadScript src l2 = (p1, l2)).
  { unfold loadScript. now rewrite Hmemo. }
  split; [exact Hsecond |]. split; [exact Hcount |].
  intros Hfresh. rewrite Hsecond. cbn [snd]. rewrite Hcount.
  unfold loadScript in Hcall. rewrite Hfresh in Hcall. injection Hcall as <- <-.
  split.
  - unfold fetches; cbn. now rewrite map_app.
  - rewrite fetch_count_app. cbn [map fst].
    rewrite filter_cons_True by reflexivity. cbn. lia.
Qed.

Lemma loadScript_shared_witness :
  let src := "https://cdn.jsdelivr.net/npm/opencv.js" in
  let l1 := snd (loadScript src initialLoader) in
  let l2 := onload 0 l1 in
  loadScript src initialLoader = (0%nat, l1) /\
  not_rejected l2 0 /\
  loadScript src l2 = (0%nat, l2) /\
  fetch_count src l2 = 1%nat.
Proof.
  intros src l1 l2.
  assert (Hsteps : rtc loader_step l1 l2).
  { apply rtc_once. apply (step_load 0 src l1). reflexivity. }
  assert (Hlive : not_rejected l2 0) by (right; reflexivity).
  destruct (loadScript_shared initialLoader l1 l2 src 0
              (rtc_refl _ _) eq_refl Hsteps Hlive) as (Hsecond & Hcount & _).
  split; [reflexivity |]. split; [exact Hlive |].
  split; [exact Hsecond |]. rewrite Hcount. reflexivity.
Defined.

(** * Further properties of the code *)

(** ** The crop region, continued *)

(** X1.  A face that lies inside the image, with sides that are not
    negative, lies inside its crop, and the crop has sides that are not
    negative. *)
Theorem cropRegion_contains_face (img : Image) (face : FaceRect)
  (Hx : 0 <= x face) (Hy : 0 <= y face)
  (Hw : 0 <= width face) (Hh : 0 <= height face)
  (Hright : x face + width face <= naturalWidth img)
  (Hbottom : y face + height face <= naturalHeight img) :
  let r := cropRegion img face in
  cx r <= x face /\ cy r <= y face /\
  x face + width face <= cx r + cw r /\
  y face + height face <= cy r + ch r /\
  0 <= cw r /\ 0 <= ch r.
Proof.
  rewrite cropRegion_formula. cbv zeta. cbn [cx cy cw ch].
  Z.div_mod_to_equations. lia.
Qed.

Lemma cropRegion_contains_face_witness :
  let img := mkImage 100 100 in
  let face := mkFaceRect 2 90 10 9 in
  let r := cropRegion img face in
  r = mkCropRegion 0 88 15 12 /\
  cx r <= x face /\ cy r <= y face /\
  x face + width face <= cx r + cw r /\
  y face + height face <= cy r + ch r /\
  0 <= cw r /\ 0 <= ch r.
Proof.
  intros img face r. split; [reflexivity |].
  apply (cropRegion_contains_face img face); cbn; lia.
Defined.

(** X2.  For a face whose sides are not negative, the width of the crop
    is negative exactly when the origin of the crop lies right of the
    image, and its height exactly when the origin lies below the image:
    nothing in [cropFaces] keeps such a rectangle away from the canvas. *)
Theorem cropRegion_negative_size (img : Image) (face : FaceRect)
  (Hw : 0 <= width face) (Hh : 0 <= height face) :
  let r := cropRegion img face in
  (cw r < 0 <-> naturalWidth img < cx r) /\
  (ch r < 0 <-> naturalHeight img < cy r).
Proof.
  rewrite cropRegion_formula. cbv zeta. cbn [cx cy cw ch].
  Z.div_mod_to_equations. lia.
Qed.

Lemma cropRegion_negative_size_witness :
  let img := mkImage 100 100 in
  let face := mkFaceRect 150 10 20 20 in
  let r := cropRegion img face in
  r = mkCropRegion 145 5 (-45) 30 /\
  (cw r < 0 <-> naturalWidth img < cx r) /\
  (ch r < 0 <-> naturalHeight img < cy r).
Proof.
  intros img face r. split; [reflexivity |].
  apply (cropRegion_negative_size img face); cbn; lia.
Defined.

(** The canvas of such a crop: assigning the negative width leaves the
    canvas 300 pixels wide. *)
Example crop_canvas_negative_width :
  let c := crop_canvas (mkImage 100 100) (mkFaceRect 150 10 20 20) in
  canvas_width c = 300 /\ canvas_height c = 30.
Proof. split; reflexivity. Qed.

Lemma map_shared_app {S A B : Type} (f : S -> A -> S * B) (l1 l2 : list A) (s : S) :
  map_shared f s (l1 ++ l2)
  = (fst (map_shared f (fst (map_shared f s l1)) l2),
     snd (map_shared f s l1) ++ snd (map_shared f (fst (map_shared f s l1)) l2)).
Proof.
  revert s; induction l1 as [| a l1 IH]; intros s; cbn.
  - now destruct (map_shared f s l2).
  - destruct (f s a) as [s1 b]. rewrite IH.
    now destruct (map_shared f s1 l1), (map_shared f _ l2).
Qed.

(** X3.  The crops of a list of faces are the crops of its parts, one
    after the other, with or without a drawing context: what the shared
    canvas holds from one face never shows in the crop of another. *)
Theorem cropFaces_app (dom : Dom) (img : Image) (faces1 faces2 : list FaceRect) :
  cropFaces dom img (faces1 ++ faces2)
  = cropFaces dom img faces1 ++ cropFaces dom img faces2.
Proof.
  unfold cropFaces. destruct (context2d dom); [| reflexivity].
  rewrite map_shared_app. cbn [snd]. f_equal.
  rewrite !(map_shared_stateless (cropFace dom img)
              (fun face => toDataURL dom (crop_canvas img face)));
    try reflexivity; intros s a; now rewrite cropFace_canvas.
Qed.

(** ** The classical adapter and the native heap, continued *)

(** X4.  On every path the classical adapter leaves the objects that were
    in the heap before the call as they were and only adds objects behind
    them: four released ones when it returns, and when it throws at most
    four, as many as it had constructed when the exception came, all of
    them still live. *)
Theorem detectWithOpenCV_frame (dom : Dom) (cv : CvEngine) (clock : Clock)
  (img : Image) (params : OpenCVParams) (h : Heap) :
  exists added : Heap,
    snd (detectWithOpenCV dom cv clock img params h) = h ++ added /\
    match fst (detectWithOpenCV dom cv clock img params h) with
    | Normal _ => length added = 4%nat /\ live_count added = 0%nat
    | Throw _ => (length added <= 4)%nat /\ live_count added = length added
    end.
Proof.
  rewrite detectWithOpenCV_run. cbv zeta.
  destruct (context2d dom);
    [| exists []; rewrite app_nil_r; cbn; split; first [reflexivity | lia] ].
  destruct (imread_ok cv);
    [| exists []; rewrite app_nil_r; cbn; split; first [reflexivity | lia] ].
  destruct (new_Mat_ok cv);
    [| eexists; split; [reflexivity | cbn; split; first [reflexivity | lia] ] ].
  destruct (cvtColor_ok cv && equalizeHist_ok cv);
    [| eexists; split; [reflexivity | cbn; split; first [reflexivity | lia] ] ].
  destruct (new_RectVector_ok cv);
    [| eexists; split; [reflexivity | cbn; split; first [reflexivity | lia] ] ].
  destruct (new_CascadeClassifier_ok cv);
    [| eexists; split; [reflexivity | cbn; split; first [reflexivity | lia] ] ].
  destruct (load_ok cv);
    [| eexists; split; [reflexivity | cbn; split; first [reflexivity | lia] ] ].
  destruct (detectMultiScale_result cv) as [rects |];
    eexists; (split; [reflexivity | cbn; split; first [reflexivity | lia] ]).
Qed.

(** Where an exception leaves one or three objects behind: the
    constructor of the grayscale matrix, and that of the classifier. *)
Example detectWithOpenCV_frame_one_and_three :
  let dom := mkDom true (fun _ => "data:image/png;base64,") in
  let run := fun cv =>
    detectWithOpenCV dom cv (mkClock 0 1) (mkImage 100 100)
      (mkOpenCVParams (11 # 10) 9 80) [] in
  live_count (snd (run (mkCvEngine true true true true None false true true true)))
  = 1%nat /\
  live_count (snd (run (mkCvEngine true true true true None true true false true)))
  = 3%nat.
Proof. split; reflexivity. Qed.

Lemma live_count_app (h1 h2 : Heap) :
  live_count (h1 ++ h2) = (live_count h1 + live_count h2)%nat.
Proof. unfold live_count. now rewrite filter_app, length_app. Qed.

Lemma repeat_detect_all_ok (dom : Dom) (cv : CvEngine) (clock : Clock)
  (img : Image) (params : OpenCVParams) (rects : list CvRect) (n : nat) (h : Heap)
  (Hctx : context2d dom = true) (Himread : imread_ok cv = true)
  (Hcvt : cvtColor_ok cv = true) (Heq : equalizeHist_ok cv = true)
  (Hdet : detectMultiScale_result cv = Some rects)
  (Hmat : new_Mat_ok cv = true) (Hvec : new_RectVector_ok cv = true)
  (Hcls : new_CascadeClassifier_ok cv = true) (Hload : load_ok cv = true) :
  live_count (repeat_detect dom cv clock img params n h) = live_count h.
Proof.
  revert h. induction n as [| n IH]; intros h; [reflexivity |].
  cbn [repeat_detect]. rewrite IH.
  rewrite detectWithOpenCV_run, Hctx, Himread, Hcvt, Heq, Hdet,
    Hmat, Hvec, Hcls, Hload.
  cbn [andb snd]. rewrite live_count_app.
  change (live_count (call_objects cv rects Released)) with 0%nat. lia.
Qed.

(** X5.  Calls that return do not add to the live objects, however many
    of them there are: when the adapter returns for an engine behaviour,
    [n] calls with it, one after the other, leave as many live objects as
    there were. *)
Theorem repeat_detect_returning (dom : Dom) (cv : CvEngine) (clock : Clock)
  (img : Image) (params : OpenCVParams) (r : DetectionResult) (n : nat)
  (h0 h : Heap)
  (Hret : fst (detectWithOpenCV dom cv clock img params h0) = Normal r) :
  live_count (repeat_detect dom cv clock img params n h) = live_count h.
Proof.
  rewrite detectWithOpenCV_run in Hret. cbv zeta in Hret.
  destruct (context2d dom) eqn:Hctx; [| discriminate].
  destruct (imread_ok cv) eqn:Himread; [| discriminate].
  destruct (new_Mat_ok cv) eqn:Hmat; [| discriminate].
  destruct (cvtColor_ok cv) eqn:Hcvt; [| discriminate].
  destruct (equalizeHist_ok cv) eqn:Heq; [| discriminate].
  destruct (new_RectVector_ok cv) eqn:Hvec; [| discriminate].
  destruct (new_CascadeClassifier_ok cv) eqn:Hcls; [| discriminate].
  destruct (load_ok cv) eqn:Hload; [| discriminate].
  destruct (detectMultiScale_result cv) as [rects |] eqn:Hdet; [| discriminate].
  now apply (repeat_detect_all_ok dom cv clock img params rects).
Qed.

Lemma repeat_detect_returning_witness :
  let dom := mkDom true (fun _ => "data:image/png;base64,") in
  let cv :=
    mkCvEngine true true true true (Some [mkCvRect 40 40 20 20])
      true true true true in
  let img := mkImage 100 100 in
  let params := mkOpenCVParams (11 # 10) 9 80 in
  fst (detectWithOpenCV dom cv (mkClock 0 1) img params [])
  = Normal (opencv_result dom (mkClock 0 1) img [mkCvRect 40 40 20 20]) /\
  live_count
    (repeat_detect dom cv (mkClock 0 1) img params 3 [mkNativeObj VMat Live])
  = live_count [mkNativeObj VMat Live].
Proof.
  intros dom cv img params. split; [reflexivity |].
  apply (repeat_detect_returning dom cv (mkClock 0 1) img params
           (opencv_result dom (mkClock 0 1) img [mkCvRect 40 40 20 20]) 3 []).
  reflexivity.
Defined.

(** X6.  Calls in which [detectMultiScale] throws add four live objects
    each: after [n] of them the heap holds [4 n] live objects more. *)
Theorem repeat_detect_throwing (dom : Dom) (cv : CvEngine) (clock : Clock)
  (img : Image) (params : OpenCVParams) (n : nat) (h : Heap)
  (Hctx : context2d dom = true) (Himread : imread_ok cv = true)
  (Hcvt : cvtColor_ok cv = true) (Heq : equalizeHist_ok cv = true)
  (Hdet : detectMultiScale_result cv = None)
  (Hmat : new_Mat_ok cv = true) (Hvec : new_RectVector_ok cv = true)
  (Hcls : new_CascadeClassifier_ok cv = true) (Hload : load_ok cv = true) :
  live_count (repeat_detect dom cv clock img params n h)
  = (live_count h + 4 * n)%nat.
Proof.
  revert h. induction n as [| n IH]; intros h; [cbn [repeat_detect]; lia |].
  cbn [repeat_detect]. rewrite IH.
  rewrite detectWithOpenCV_run, Hctx, Himread, Hcvt, Heq, Hdet,
    Hmat, Hvec, Hcls, Hload.
  cbn [andb snd]. rewrite live_count_app.
  change (live_count (call_objects cv [] Live)) with 4%nat. lia.
Qed.

Lemma repeat_detect_throwing_witness :
  let dom := mkDom true (fun _ => "data:image/png;base64,") in
  let cv := mkCvEngine true true true false None true true true true in
  live_count
    (repeat_detect dom cv (mkClock 0 1) (mkImage 100 100)
       (mkOpenCVParams (11 # 10) 9 80) 3 [])
  = 12%nat.
Proof.
  intros dom cv.
  apply (repeat_detect_throwing dom cv (mkClock 0 1) (mkImage 100 100)
           (mkOpenCVParams (11 # 10) 9 80) 3 []);
    reflexivity.
Defined.

(** ** [runDetection], continued *)

(** X7.  An engine whose status is not [ready] is not called: the run
    reports "OpenCV not loaded" and leaves the native heap as it was,
    and reports "face-api.js not loaded" for the neural engine. *)
Theorem runDetection_not_ready (env : RunEnv) (s : UiState) (h : Heap)
  (img : Image) (Himg : imageRef env = Some img) :
  let s' := fst (runDetection env s h) in
  (opencvStatus env <> ready ->
   snd (runDetection env s h) = h /\
   opencvResult s' = None /\ opencvError s' = Some "OpenCV not loaded") /\
  (faceApiStatus env <> ready ->
   faceApiResult s' = None /\ faceApiError s' = Some "face-api.js not loaded").
Proof.
  rewrite (runDetection_state env s h img Himg). cbn zeta. cbn [fst snd].
  cbn [opencvResult opencvError faceApiResult faceApiError].
  unfold opencvBranch, faceApiBranch. split.
  - intros Hst. destruct (opencvStatus env); try easy; now cbn.
  - intros Hst. destruct (faceApiStatus env); try easy; now cbn.
Qed.

Lemma runDetection_not_ready_witness :
  let dom := mkDom true (fun _ => "data:image/png;base64,") in
  let img := mkImage 100 100 in
  let env :=
    mkRunEnv dom (Some img) loading error
      (mkOpenCVParams (11 # 10) 9 80) (mkFaceApiParams 704 (3 # 10))
      (mkCvEngine true true true true (Some [mkCvRect 40 40 20 20]) true true true true)
      (Normal [mkDetection (mkBox 40 40 20 20)])
      (mkClock 0 1) (mkClock 0 2) in
  let s' := fst (runDetection env initialUi []) in
  imageRef env = Some img /\
  snd (runDetection env initialUi []) = [] /\
  opencvError s' = Some "OpenCV not loaded" /\
  faceApiError s' = Some "face-api.js not loaded".
Proof.
  intros dom img env s'. split; [reflexivity |].
  destruct (runDetection_not_ready env initialUi [] img eq_refl) as [H1 H2].
  destruct (H1 ltac:(discriminate)) as (Hh & _ & He1).
  destruct (H2 ltac:(discriminate)) as (_ & He2).
  split; [exact Hh |]. split; [exact He1 | exact He2].
Defined.

(** X8.  A run on an image overwrites whatever an earlier run left: the
    state after it is the same from any state before it, and it ends
    with [isDetecting] false. *)
Theorem runDetection_overwrites (env : RunEnv) (s1 s2 : UiState) (h : Heap)
  (img : Image) (Himg : imageRef env = Some img) :
  fst (runDetection env s1 h) = fst (runDetection env s2 h) /\
  isDetecting (fst (runDetection env s1 h)) = false.
Proof.
  rewrite !(runDetection_state env _ h img Himg). now split.
Qed.

Lemma runDetection_overwrites_witness :
  let dom := mkDom true (fun _ => "data:image/png;base64,") in
  let img := mkImage 100 100 in
  let env :=
    mkRunEnv dom (Some img) ready ready
      (mkOpenCVParams (11 # 10) 9 80) (mkFaceApiParams 704 (3 # 10))
      (mkCvEngine true true true true (Some [mkCvRect 40 40 20 20]) true true true true)
      (Throw (JsNumber 7))
      (mkClock 0 1) (mkClock 0 2) in
  let stale := mkUiState None (Some (mkDetectionResult [] [] 0)) true (Some "old") None in
  imageRef env = Some img /\
  fst (runDetection env stale []) = fst (runDetection env initialUi []) /\
  isDetecting (fst (runDetection env stale [])) = false.
Proof.
  intros dom img env stale. split; [reflexivity |].
  apply (runDetection_overwrites env stale initialUi [] img). reflexivity.
Defined.

(** X9.  After a run on an image the grid of result panels is rendered,
    whatever the branches did, and the speed comparison is rendered
    exactly when neither engine has an error. *)
Theorem runDetection_sections_shown (env : RunEnv) (s : UiState) (h : Heap)
  (img : Image) (Himg : imageRef env = Some img) :
  let s' := fst (runDetection env s h) in
  resultsShown s' = true /\
  (comparisonShown s' = true <-> opencvError s' = None /\ faceApiError s' = None).
Proof.
  rewrite (runDetection_state env s h img Himg). cbn zeta. cbn [fst].
  unfold resultsShown, comparisonShown.
  cbn [opencvResult opencvError faceApiResult faceApiError].
  destruct (fst (opencvBranch env img h)) as [v1 | e1],
           (faceApiBranch env img) as [v2 | e2];
    cbn [result_of error_of truthy_object truthy_text orb andb];
    rewrite ?error_text_truthy; (split; [reflexivity |]);
    split; try easy; intros [? ?]; easy.
Qed.

Lemma runDetection_sections_shown_witness :
  let dom := mkDom true (fun _ => "data:image/png;base64,") in
  let img := mkImage 100 100 in
  let env :=
    mkRunEnv dom (Some img) loading error
      (mkOpenCVParams (11 # 10) 9 80) (mkFaceApiParams 704 (3 # 10))
      (mkCvEngine true true true true (Some []) true true true true)
      (Normal [])
      (mkClock 0 1) (mkClock 0 2) in
  let s' := fst (runDetection env initialUi []) in
  imageRef env = Some img /\
  resultsShown initialUi = false /\
  resultsShown s' = true /\
  comparisonShown s' = false.
Proof.
  intros dom img env s'. split; [reflexivity |]. split; [reflexivity |].
  destruct (runDetection_sections_shown env initialUi [] img eq_refl) as [H1 _].
  split; [exact H1 | reflexivity].
Defined.

(** ** The script loader, continued *)

(** X10.  In every state the loader can be in, a URL has at most one
    script whose promise is pending or fulfilled. *)
Theorem loader_one_script_per_url (l : Loader) (src : string) (p q : nat)
  (Hreach : reachable l)
  (Hp : scripts l !! p = Some (src, Pending) \/ scripts l !! p = Some (src, Resolved))
  (Hq : scripts l !! q = Some (src, Pending) \/ scripts l !! q = Some (src, Resolved)) :
  p = q.
Proof.
  destruct (reachable_inv l Hreach) as [_ Hscript].
  assert (H1 : scriptLoadPromises l !! src = Some p)
    by (destruct Hp as [Hp | Hp]; now apply (Hscript _ _ _ Hp)).
  assert (H2 : scriptLoadPromises l !! src = Some q)
    by (destruct Hq as [Hq | Hq]; now apply (Hscript _ _ _ Hq)).
  congruence.
Qed.

Lemma loader_one_script_per_url_witness :
  let src := "https://cdn.jsdelivr.net/npm/opencv.js" in
  let l := snd (loadScript src (snd (loadScript src initialLoader))) in
  scripts l !! 0%nat = Some (src, Pending) /\ 0%nat = 0%nat.
Proof.
  intros src l. split; [reflexivity |].
  apply (loader_one_script_per_url l src 0 0).
  - eapply rtc_l; [apply (step_call src) |]. apply rtc_once. apply (step_call src).
  - left; reflexivity.
  - left; reflexivity.
Defined.

(** X11.  After the error event of a pending script its promise is
    rejected and its URL forgotten, so that the next call for the URL
    starts over: it appends a new script, fetching the URL once more, and
    returns a new, pending promise. *)
Theorem loadScript_retry_after_error (l : Loader) (src : string) (p : nat)
  (Hp : scripts l !! p = Some (src, Pending)) :
  let failed := onerror src p l in
  let retry := loadScript src failed in
  promise_state failed p = Some Rejected /\
  fst retry = length (scripts l) /\
  fst retry <> p /\
  promise_state (snd retry) (fst retry) = Some Pending /\
  promise_state (snd retry) p = Some Rejected /\
  fetch_count src (snd retry) = S (fetch_count src l).
Proof.
  cbv zeta.
  assert (Hfailed : scripts (onerror src p l) !! p = Some (src, Rejected)).
  { cbn. rewrite (settle_lookup _ _ _ _ _ _ Hp). now rewrite decide_True. }
  assert (Hlen : length (scripts (onerror src p l)) = length (scripts l)).
  { cbn. unfold settle. rewrite Hp. apply length_insert. }
  assert (Hlt : (p < length (scripts l))%nat) by (eapply lookup_lt_Some, Hp).
  assert (Hretry : loadScript src (onerror src p l)
                   = (length (scripts l),
                      {| scriptLoadPromises :=
                           <[src := length (scripts l)]>
                             (scriptLoadPromises (onerror src p l));
                         scripts := scripts (onerror src p l) ++ [(src, Pending)] |})).
  { unfold loadScript.
    replace (scriptLoadPromises (onerror src p l) !! src) with (@None nat)
      by (cbn; now rewrite lookup_delete_eq).
    now rewrite Hlen. }
  rewrite Hretry. cbn [fst snd].
  split; [unfold promise_state; now rewrite Hfailed |].
  split; [reflexivity |]. split; [lia |].
  split; [| split].
  - unfold promise_state. cbn [scripts].
    rewrite lookup_app_r by lia. rewrite Hlen, Nat.sub_diag. reflexivity.
  - unfold promise_state. cbn [scripts].
    rewrite lookup_app_l by lia. now rewrite Hfailed.
  - rewrite fetch_count_app. cbn [map fst].
    rewrite filter_cons_True by reflexivity. cbn [filter length].
    unfold fetch_count, fetches. cbn [scripts onerror]. rewrite settle_fst.
    rewrite filter_nil. cbn. lia.
Qed.

Lemma loadScript_retry_after_error_witness :
  let src := "https://cdn.jsdelivr.net/npm/opencv.js" in
  let l := snd (loadScript src initialLoader) in
  let retry := loadScript src (onerror src 0 l) in
  scripts l !! 0%nat = Some (src, Pending) /\
  fst retry = 1%nat /\
  fetches (snd retry) = [src; src] /\
  fetch_count src (snd retry) = 2%nat.
Proof.
  intros src l retry.
  destruct (loadScript_retry_after_error l src 0 eq_refl)
    as (_ & Hfst & _ & _ & _ & Hcount).
  split; [reflexivity |]. split; [exact Hfst |].
  split; [reflexivity | exact Hcount].
Defined.

Lemma step_fetches (l l' : Loader) :
  loader_step l l' -> exists more, fetches l' = fetches l ++ more.
Proof.
  intros [src l0 | p src l0 Hp | p src l0 Hp].
  - unfold loadScript. destruct (scriptLoadPromises l0 !! src); cbn [snd].
    + exists []. now rewrite app_nil_r.
    + exists [src]. unfold fetches; cbn. now rewrite map_app.
  - exists []. unfold fetches; cbn. now rewrite settle_fst, app_nil_r.
  - exists []. unfold fetches; cbn. now rewrite settle_fst, app_nil_r.
Qed.

(** X12.  The log of fetches only grows at its end: whatever happens,
    the fetches made so far stay where they are. *)
Theorem fetches_only_grow (l l' : Loader) (Hsteps : rtc loader_step l l') :
  exists more, fetches l' = fetches l ++ more.
Proof.
  induction Hsteps as [l | l l1 l' Hstep _ [more2 IH]].
  - exists []. now rewrite app_nil_r.
  - destruct (step_fetches _ _ Hstep) as [more1 H1].
    exists (more1 ++ more2). now rewrite IH, H1, app_assoc.
Qed.

Lemma fetches_only_grow_witness :
  let a := "https://cdn.jsdelivr.net/npm/opencv.js" in
  let b := "https://cdn.jsdelivr.net/npm/face-api.js" in
  let l := snd (loadScript a initialLoader) in
  let l' := snd (loadScript b (onerror a 0 l)) in
  fetches l = [a] /\ fetches l' = [a; b] /\
  exists more, fetches l' = fetches l ++ more.
Proof.
  intros a b l l'. split; [reflexivity |]. split; [reflexivity |].
  apply (fetches_only_grow l l').
  eapply rtc_l; [apply (step_error 0 a l); reflexivity |].
  apply rtc_once. apply (step_call b).
Defined.

Lemma step_resolved (l l' : Loader) (p : nat) (src : string) :
  loader_step l l' ->
  scripts l !! p = Some (src, Resolved) ->
  scripts l' !! p = Some (src, Resolved).
Proof.
  intros Hstep Hp.
  destruct Hstep as [src0 l | q src0 l Hq | q src0 l Hq].
  - unfold loadScript. destruct (scriptLoadPromises l !! src0); cbn; [exact Hp |].
    now apply lookup_app_l_Some.
  - cbn. rewrite (settle_lookup _ _ _ _ _ _ Hp). now destruct (decide (q = p)).
  - cbn. rewrite (settle_lookup _ _ _ _ _ _ Hp). now destruct (decide (q = p)).
Qed.

Lemma steps_resolved (l l' : Loader) (p : nat) (src : string) :
  rtc loader_step l l' ->
  scripts l !! p = Some (src, Resolved) ->
  scripts l' !! p = Some (src, Resolved).
Proof. induction 1; eauto using step_resolved. Qed.

(** X13.  A script that has loaded is loaded for good: from then on
    every call for its URL, after whatever calls and events, returns its
    promise, fulfilled, without touching the loader, and the URL is never
    fetched again. *)
Theorem loadScript_resolved_forever (l l' : Loader) (src : string) (p : nat)
  (Hreach : reachable l)
  (Hp : scripts l !! p = Some (src, Resolved))
  (Hsteps : rtc loader_step l l') :
  loadScript src l' = (p, l') /\
  promise_state l' p = Some Resolved /\
  fetch_count src l' = fetch_count src l.
Proof.
  assert (Hp' := steps_resolved _ _ _ _ Hsteps Hp).
  assert (Hstate : promise_state l' p = Some Resolved)
    by (unfold promise_state; now rewrite Hp').
  destruct (shared_while_not_rejected _ _ _ _ _ Hsteps (reachable_inv l Hreach) Hp
              (or_intror Hstate)) as [Hmemo Hcount].
  split; [| now split]. unfold loadScript. now rewrite Hmemo.
Qed.

Lemma loadScript_resolved_forever_witness :
  let a := "https://cdn.jsdelivr.net/npm/opencv.js" in
  let b := "https://cdn.jsdelivr.net/npm/face-api.js" in
  let l := onload 0 (snd (loadScript a initialLoader)) in
  let l' := onerror b 1 (snd (loadScript b l)) in
  scripts l !! 0%nat = Some (a, Resolved) /\
  loadScript a l' = (0%nat, l') /\
  fetch_count a l' = 1%nat.
Proof.
  intros a b l l'. split; [reflexivity |].
  assert (Hreach : reachable l).
  { eapply rtc_l; [apply (step_call a) |].
    apply rtc_once. apply (step_load 0 a). reflexivity. }
  assert (Hsteps : rtc loader_step l l').
  { eapply rtc_l; [apply (step_call b) |].
    apply rtc_once. apply (step_error 1 b). reflexivity. }
  destruct (loadScript_resolved_forever l l' a 0 Hreach eq_refl Hsteps)
    as (Hcall & _ & Hcount).
  split; [exact Hcall |]. rewrite Hcount. reflexivity.
Defined.

(** X14.  [loadScript] never hands out a promise that has already failed:
    in every state the loader can be in, the promise a call returns is
    pending or fulfilled when the call returns. *)
Theorem loadScript_returns_not_rejected (l l1 : Loader) (src : string) (p : nat)
  (Hreach : reachable l) (Hcall : loadScript src l = (p, l1)) :
  not_rejected l1 p.
Proof.
  destruct (reachable_inv l Hreach) as [Hmemo _].
  unfold loadScript in Hcall.
  destruct (scriptLoadPromises l !! src) as [existing |] eqn:Hsrc;
    injection Hcall as <- <-.
  - destruct (Hmemo _ _ Hsrc) as (st & Hst & Hrej).
    unfold not_rejected, promise_state. rewrite Hst.
    destruct st; [now left | now right | contradiction].
  - left. unfold promise_state. cbn.
    rewrite lookup_app_r by lia. now rewrite Nat.sub_diag.
Qed.

Lemma loadScript_returns_not_rejected_witness :
  let a := "https://cdn.jsdelivr.net/npm/opencv.js" in
  let l := onerror a 0 (snd (loadScript a initialLoader)) in
  promise_state l 0 = Some Rejected /\
  loadScript a l = (1%nat, snd (loadScript a l)) /\
  not_rejected (snd (loadScript a l)) 1.
Proof.
  intros a l. split; [reflexivity |]. split; [reflexivity |].
  apply (loadScript_returns_not_rejected l (snd (loadScript a l)) a 1).
  - eapply rtc_l; [apply (step_call a) |].
    apply rtc_once. apply (step_error 0 a). reflexivity.
  - reflexivity.
Defined.

(** ** Drawing the detection boxes *)

Lemma drawFace_ops (measureText : string -> string -> Q) (img : Image)
  (color : string) (c : Overlay) (face : FaceRect) (i : nat) :
  let c' := drawFace measureText img color c face i in
  ov_width c' = ov_width c /\ ov_height c' = ov_height c /\
  ov_ops c' = ov_ops c ++ face_ops measureText img color i face.
Proof.
  destruct c as [w h st ops]. cbn. repeat split.
  now rewrite <- !app_assoc.
Qed.

Lemma forEach_drawFace_ops (measureText : string -> string -> Q) (img : Image)
  (color : string) (faces : list FaceRect) :
  forall (c : Overlay) (i : nat),
    let c' := forEach_from (drawFace measureText img color) c faces i in
    ov_width c' = ov_width c /\ ov_height c' = ov_height c /\
    ov_ops c'
    = ov_ops c
      ++ concat (imap (fun k => face_ops measureText img color (i + k)) faces).
Proof.
  induction faces as [| face faces IH]; intros c i; cbn zeta.
  - cbn. now rewrite app_nil_r.
  - cbn [forEach_from].
    destruct (IH (drawFace measureText img color c face i) (S i)) as (Hw & Hh & Hops).
    destruct (drawFace_ops measureText img color c face i) as (Hw1 & Hh1 & Hops1).
    rewrite Hw, Hh, Hops, Hw1, Hh1, Hops1. repeat split.
    rewrite imap_cons. cbn [concat]. rewrite Nat.add_0_r, <- app_assoc.
    do 3 f_equal. apply imap_ext. intros k a _. cbn. f_equal. lia.
Qed.

Lemma concat_imap_length {A B : Type} (n : nat) (l : list A) :
  forall f : nat -> A -> list B,
    (forall k a, length (f k a) = n) ->
    length (concat (imap f l)) = (n * length l)%nat.
Proof.
  induction l as [| a l IH]; intros f Hf; [cbn; lia |].
  rewrite imap_cons. cbn [concat length]. rewrite length_app, Hf, IH; [lia |].
  intros k b. apply Hf.
Qed.

(** X15.  With a context, [drawDetections] leaves the canvas sized as the
    image and holding, whatever it held before, the image followed by
    four drawings per face in the order of the faces: the translucent
    box, its border, the label's background and the label, the face at
    position [i] labelled [#(i+1)].  So it holds [1 + 4n] drawings for
    [n] faces. *)
Theorem drawDetections_picture (measureText : string -> string -> Q)
  (canvas : Overlay) (img : Image) (faces : list FaceRect) (color : string) :
  let c := drawDetections true measureText canvas img faces color in
  ov_width c = naturalWidth img /\
  ov_height c = naturalHeight img /\
  ov_ops c
  = ODrawImage img 0 0 (naturalWidth img) (naturalHeight img)
    :: concat (imap (face_ops measureText img color) faces) /\
  length (ov_ops c) = (1 + 4 * length faces)%nat.
Proof.
  cbv zeta. unfold drawDetections.
  match goal with
  | |- context [forEach_from ?f ?c0 faces 0] =>
      destruct (forEach_drawFace_ops measureText img color faces c0 0)
        as (Hw & Hh & Hops)
  end.
  rewrite Hw, Hh, Hops. cbn [ov_width ov_height ov_ops ov_draw ov_set_height
                              ov_set_width app Nat.add].
  assert (Hext : imap (fun k => face_ops measureText img color k) faces
                 = imap (face_ops measureText img color) faces) by reflexivity.
  rewrite Hext. repeat split.
  cbn [length]. f_equal. now apply concat_imap_length.
Qed.

Lemma round_div_300 (w : Z) : Js.round (inject_Z w / 300) = (w + 150) / 300.
Proof. unfold Js.round. cbn. Z.div_mod_to_equations. lia. Qed.

Lemma round_div_40 (w : Z) : Js.round (inject_Z w / 40) = (w + 20) / 40.
Proof. unfold Js.round. cbn. Z.div_mod_to_equations. lia. Qed.

(** X16.  The border of a box is 2 pixels wide exactly for images
    narrower than 750 pixels and never thinner; the label is set in 14
    pixels exactly for images narrower than 580 pixels and never smaller;
    and neither gets smaller when the image gets wider. *)
Theorem overlay_sizes_scale (img img' : Image) :
  2 <= boxLineWidth img /\
  (boxLineWidth img = 2 <-> naturalWidth img < 750) /\
  14 <= labelFontSize img /\
  (labelFontSize img = 14 <-> naturalWidth img < 580) /\
  (naturalWidth img <= naturalWidth img' ->
   boxLineWidth img <= boxLineWidth img' /\
   labelFontSize img <= labelFontSize img').
Proof.
  unfold boxLineWidth, labelFontSize. rewrite !round_div_300, !round_div_40.
  repeat split; try (Z.div_mod_to_equations; lia).
Qed.

Lemma overlay_sizes_scale_witness :
  let img := mkImage 749 500 in
  let img' := mkImage 3000 2000 in
  boxLineWidth img = 2 /\ labelFontSize img = 19 /\
  boxLineWidth img' = 10 /\ labelFontSize img' = 75 /\
  boxLineWidth img <= boxLineWidth img' /\
  labelFontSize img <= labelFontSize img'.
Proof.
  intros img img'. do 4 (split; [reflexivity |]).
  destruct (overlay_sizes_scale img img') as (_ & _ & _ & _ & Hmono).
  apply Hmono. cbn. lia.
Defined.

(** ** Downloading a crop *)

Lemma append_cons (a : Ascii.ascii) (s t : string) :
  String a s +:+ t = String a (s +:+ t).
Proof. reflexivity. Qed.

Lemma append_length (s t : string) :
  String.length (s +:+ t) = (String.length s + String.length t)%nat.
Proof.
  induction s as [| a s IH]; [reflexivity |].
  rewrite append_cons. cbn [String.length Nat.add]. now rewrite IH.
Qed.

Lemma append_inj_r (s1 s2 t : string) : s1 +:+ t = s2 +:+ t -> s1 = s2.
Proof.
  revert s2; induction s1 as [| a s1 IH]; intros [| b s2] H.
  - reflexivity.
  - apply (f_equal String.length) in H.
    rewrite !append_length in H. cbn [String.length] in H. lia.
  - apply (f_equal String.length) in H.
    rewrite !append_length in H. cbn [String.length] in H. lia.
  - rewrite !append_cons in H. injection H as -> H. f_equal. now apply IH.
Qed.

(** X17.  The crops of the two panels download under file names that
    tell them apart: two downloads with the same name come from the same
    panel and the same position. *)
Theorem downloadFace_names_distinct (url1 url2 : string) (i1 i2 : nat)
  (m1 m2 : string)
  (Hm1 : m1 = "opencv" \/ m1 = "faceapi")
  (Hm2 : m2 = "opencv" \/ m2 = "faceapi")
  (Hname : download (downloadFace url1 i1 m1) = download (downloadFace url2 i2 m2)) :
  m1 = m2 /\ i1 = i2.
Proof.
  unfold downloadFace in Hname; cbn [download] in Hname.
  assert (Hidx : forall m, "face_" +:+ m +:+ "_" +:+ pretty (i1 + 1)%nat +:+ ".png"
                           = "face_" +:+ m +:+ "_" +:+ pretty (i2 + 1)%nat +:+ ".png"
                           -> i1 = i2).
  { intros m H. do 3 apply String.app_inj in H.
    apply append_inj_r in H. apply pretty_nat_inj in H. lia. }
  destruct Hm1 as [-> | ->], Hm2 as [-> | ->].
  - split; [reflexivity | now apply (Hidx "opencv")].
  - exfalso. apply String.app_inj in Hname. discriminate Hname.
  - exfalso. apply String.app_inj in Hname. discriminate Hname.
  - split; [reflexivity | now apply (Hidx "faceapi")].
Qed.

Lemma downloadFace_names_distinct_witness :
  download (downloadFace "data:a" 0 "opencv") = "face_opencv_1.png" /\
  download (downloadFace "data:b" 11 "faceapi") = "face_faceapi_12.png" /\
  ("opencv" = "opencv" /\ 0%nat = 0%nat).
Proof.
  split; [reflexivity |]. split; [reflexivity |].
  apply (downloadFace_names_distinct "data:a" "data:b" 0 0 "opencv" "opencv");
    [left; reflexivity | left; reflexivity | reflexivity].
Defined.

(** ** Choosing an image *)

(** X18.  A drop ends the drag highlight and looks at the first file
    only.  When that file's type starts with [image/], the page shows the
    new image and no results: both results and both errors are cleared,
    so neither the panels nor the comparison are rendered.  When it does
    not, or when nothing was dropped, image and results stay as they
    were. *)
Theorem handleDrop_effect (createObjectURL : File -> string) (files : list File)
  (pg : Page) :
  let pg' := handleDrop createObjectURL files pg in
  isDragOver pg' = false /\
  pg' = handleDrop createObjectURL (take 1 files) pg /\
  match files with
  | file :: _ =>
      if String.prefix "image/" (file_type file)
      then imageUrl pg' = Some (createObjectURL file) /\
           resultsShown (ui pg') = false /\
           comparisonShown (ui pg') = false /\
           ui pg' = mkUiState None None (isDetecting (ui pg)) None None
      else imageUrl pg' = imageUrl pg /\ ui pg' = ui pg
  | [] => imageUrl pg' = imageUrl pg /\ ui pg' = ui pg
  end.
Proof.
  cbv zeta. unfold handleDrop, handleFile.
  destruct files as [| file rest]; [now cbn |].
  cbn [take]. destruct (String.prefix "image/" (file_type file)); now cbn.
Qed.

(** ** Speed comparison *)

Lemma js_lt_spec (a b : Q) : js_lt a b = true <-> (a < b)%Q.
Proof.
  unfold js_lt. rewrite Qlt_alt. destruct (a ?= b)%Q; split; congruence.
Qed.

Lemma js_lt_false (a b : Q) : js_lt a b = false <-> (b <= a)%Q.
Proof.
  destruct (Qlt_le_dec a b) as [Hlt | Hle].
  - split.
    + intros H. apply js_lt_spec in Hlt. congruence.
    + intros H. exfalso. now apply (Qlt_not_le a b).
  - split; [easy |]. intros _.
    destruct (js_lt a b) eqn:H; [| reflexivity].
    apply js_lt_spec in H. exfalso. now apply (Qlt_not_le a b).
Qed.

Lemma barWidth_bounds (t m : Q) :
  (0 <= t)%Q -> (t <= m)%Q ->
  (5 <= barWidth t m)%Q /\ (barWidth t m <= 100)%Q /\
  ((0 < m)%Q -> (t == m)%Q -> (barWidth t m == 100)%Q).
Proof.
  intros Ht Htm. unfold barWidth.
  destruct (js_lt 0 m) eqn:Hm.
  - apply js_lt_spec in Hm.
    assert (Hle : (t / m * 100 <= 100)%Q).
    { apply Qle_trans with (1 * 100)%Q; [| unfold Qle; cbn; lia].
      apply Qmult_le_compat_r; [| unfold Qle; cbn; lia].
      apply Qle_shift_div_r; [exact Hm |]. now rewrite Qmult_1_l. }
    assert (Hm0 : ~ (m == 0)%Q).
    { intros H0. rewrite H0 in Hm. discriminate. }
    split; [apply Q.le_max_l |]. split.
    + apply Q.max_lub; [unfold Qle; cbn; lia | exact Hle].
    + intros _ Heq.
      assert (H100 : (t / m * 100 == 100)%Q) by (rewrite Heq; now field).
      rewrite Q.max_r; [exact H100 |]. rewrite H100. unfold Qle; cbn; lia.
  - apply js_lt_false in Hm. split; [discriminate |]. split; [discriminate |].
    intros Hpos. exfalso. apply (Qlt_irrefl 0). now apply Qlt_le_trans with m.
Qed.

(** X19.  When both engines have a result and neither time is negative,
    each bar of the comparison is between 5 and 100 percent wide.  The
    bar of an engine that was not faster than the other is 100 percent
    wide, unless its time is zero; and when both times are zero both bars
    are 5 percent wide. *)
Theorem comparison_bars (s : UiState) (o f : DetectionResult)
  (Ho : opencvResult s = Some o) (Hf : faceApiResult s = Some f)
  (Hto : (0 <= processingTime o)%Q) (Htf : (0 <= processingTime f)%Q) :
  exists c,
    renderComparison s = Some c /\
    (5 <= opencvBar c <= 100)%Q /\ (5 <= faceApiBar c <= 100)%Q /\
    ((processingTime f <= processingTime o)%Q -> (0 < processingTime o)%Q ->
     (opencvBar c == 100)%Q) /\
    ((processingTime o <= processingTime f)%Q -> (0 < processingTime f)%Q ->
     (faceApiBar c == 100)%Q) /\
    ((processingTime o == 0)%Q -> (processingTime f == 0)%Q ->
     (opencvBar c == 5)%Q /\ (faceApiBar c == 5)%Q).
Proof.
  unfold renderComparison, maxTime. rewrite Ho, Hf. cbn [time_or_zero].
  eexists. split; [reflexivity |]. cbn [opencvBar faceApiBar].
  set (to := processingTime o) in *. set (tf := processingTime f) in *.
  destruct (barWidth_bounds to (Qmax to tf) Hto (Q.le_max_l _ _)) as (Ho1 & Ho2 & Ho3).
  destruct (barWidth_bounds tf (Qmax to tf) Htf (Q.le_max_r _ _)) as (Hf1 & Hf2 & Hf3).
  split; [now split |]. split; [now split |].
  split; [| split].
  - intros Hle Hpos. apply Ho3.
    + apply Qlt_le_trans with to; [exact Hpos | apply Q.le_max_l].
    + symmetry. now apply Q.max_l.
  - intros Hle Hpos. apply Hf3.
    + apply Qlt_le_trans with tf; [exact Hpos | apply Q.le_max_r].
    + symmetry. now apply Q.max_r.
  - intros Hzo Hzf.
    assert (Hmax : (Qmax to tf <= 0)%Q).
    { apply Q.max_lub; [rewrite Hzo | rewrite Hzf]; apply Qle_refl. }
    unfold barWidth.
    replace (js_lt 0 (Qmax to tf)) with false
      by (symmetry; now apply js_lt_false).
    split; reflexivity.
Qed.

Lemma comparison_bars_witness :
  let o := mkDetectionResult [] [] 40 in
  let f := mkDetectionResult [] [] 1 in
  let s := mkUiState (Some o) (Some f) false None None in
  renderComparison s
  = Some (mkComparison (barWidth 40 (maxTime s)) (barWidth 1 (maxTime s))
            (FaceApiFaster (Finite (40 / 1)))) /\
  (barWidth 1 (maxTime s) == 5)%Q /\
  exists c,
    renderComparison s = Some c /\
    (5 <= opencvBar c <= 100)%Q /\ (5 <= faceApiBar c <= 100)%Q /\
    (opencvBar c == 100)%Q.
Proof.
  intros o f s. split; [reflexivity |]. split; [reflexivity |].
  destruct (comparison_bars s o f eq_refl eq_refl) as (c & Hc & H1 & H2 & H3 & _);
    [discriminate | discriminate |].
  exists c. split; [exact Hc |]. split; [exact H1 |]. split; [exact H2 |].
  apply H3; [discriminate | reflexivity].
Defined.

Lemma js_div_faster (a b : Q) :
  (0 <= b)%Q -> (b < a)%Q ->
  (js_div a b = PlusInfinity /\ (b == 0)%Q) \/
  (js_div a b = Finite (a / b) /\ (1 < a / b)%Q).
Proof.
  intros Hb Hab. unfold js_div.
  destruct (b ?= 0)%Q eqn:Hcmp.
  - apply Qeq_alt in Hcmp. left.
    assert (Ha : (a ?= 0)%Q = Gt).
    { apply Qgt_alt. now rewrite <- Hcmp. }
    now rewrite Ha.
  - apply Qlt_alt in Hcmp. exfalso. now apply (Qlt_not_le b 0).
  - apply Qgt_alt in Hcmp. right. split; [reflexivity |].
    apply Qlt_shift_div_l; [exact Hcmp |]. now rewrite Qmult_1_l.
Qed.

(** X20.  For two results whose times are not negative, the summary says
    "same processing time" exactly when the times are equal; otherwise it
    names the engine with the smaller time and says how many times faster
    it was, which is the quotient of the larger by the smaller time and
    more than 1, or infinity when the smaller time is zero. *)
Theorem comparison_verdict (o f : DetectionResult)
  (Hto : (0 <= processingTime o)%Q) (Htf : (0 <= processingTime f)%Q) :
  let to := processingTime o in
  let tf := processingTime f in
  match verdict o f with
  | SameTime => (to == tf)%Q
  | OpencvFaster r =>
      (to < tf)%Q /\
      ((r = PlusInfinity /\ (to == 0)%Q) \/ (r = Finite (tf / to) /\ (1 < tf / to)%Q))
  | FaceApiFaster r =>
      (tf < to)%Q /\
      ((r = PlusInfinity /\ (tf == 0)%Q) \/ (r = Finite (to / tf) /\ (1 < to / tf)%Q))
  end.
Proof.
  cbv zeta. unfold verdict.
  destruct (js_lt (processingTime o) (processingTime f)) eqn:H1.
  - apply js_lt_spec in H1. split; [exact H1 |]. now apply js_div_faster.
  - destruct (js_lt (processingTime f) (processingTime o)) eqn:H2.
    + apply js_lt_spec in H2. split; [exact H2 |]. now apply js_div_faster.
    + apply js_lt_false in H1, H2. now apply Qle_antisym.
Qed.

Lemma comparison_verdict_witness :
  let o := mkDetectionResult [] [] 0 in
  let f := mkDetectionResult [] [] (3 # 2) in
  verdict o f = OpencvFaster PlusInfinity /\
  verdict f o = FaceApiFaster PlusInfinity /\
  verdict f f = SameTime /\
  (processingTime o < processingTime f)%Q.
Proof.
  intros o f. split; [reflexivity |]. split; [reflexivity |].
  split; [reflexivity |].
  assert (H := comparison_verdict o f ltac:(discriminate) ltac:(discriminate)).
  cbv zeta in H. change (verdict o f) with (OpencvFaster PlusInfinity) in H.
  exact (proj1 H).
Defined.

(** ** Initialization of the classical engine *)

Lemma init_bind_fulfils {A B} (m : Init A) (k : A -> Init B) w a w1 :
  m w = (Fulfils a, w1) -> (m ≫= k) w = k a w1.
Proof. intros H. unfold mbind, init_bind. now rewrite H. Qed.

Lemma init_bind_rejects {A B} (m : Init A) (k : A -> Init B) w e w1 :
  m w = (Rejects e, w1) -> (m ≫= k) w = (Rejects e, w1).
Proof. intros H. unfold mbind, init_bind. now rewrite H. Qed.

Lemma init_bind_never {A B} (m : Init A) (k : A -> Init B) w w1 :
  m w = (NeverSettles, w1) -> (m ≫= k) w = (NeverSettles, w1).
Proof. intros H. unfold mbind, init_bind. now rewrite H. Qed.

Lemma on_heap_normal {A} (m : Native A) (w : CvWorld) (a : A) (h : Heap) :
  m (w_heap w) = (Normal a, h) ->
  on_heap m w = (Fulfils a, mkCvWorld h (w_files w) (w_requests w)).
Proof. intros H. unfold on_heap. now rewrite H. Qed.

Lemma on_heap_throw {A} (m : Native A) (w : CvWorld) (e : JsValue) (h : Heap) :
  m (w_heap w) = (Throw e, h) ->
  on_heap m w = (Rejects e, mkCvWorld h (w_files w) (w_requests w)).
Proof. intros H. unfold on_heap. now rewrite H. Qed.

Lemma lookup_last_added (h : Heap) (o : NativeObj) : (h ++ [o]) !! length h = Some o.
Proof. rewrite lookup_app_r by lia. now rewrite Nat.sub_diag. Qed.

Lemma insert_last_added (h : Heap) (o o' : NativeObj) :
  <[length h := o']> (h ++ [o]) = h ++ [o'].
Proof.
  replace (length h) with (length h + 0)%nat at 1 by lia.
  now rewrite insert_app_r.
Qed.

Lemma test_load_run (env : InitEnv) (h : Heap) (v : NativeVal) :
  test_load env (length h) (h ++ [mkNativeObj v Live]) =
  match probe_load env with
  | Normal b => (Normal b, h ++ [mkNativeObj (VCascadeClassifier b) Live])
  | Throw e => (Throw e, h ++ [mkNativeObj v Live])
  end.
Proof.
  unfold test_load.
  erewrite bind_normal; [| unfold use; now rewrite lookup_last_added].
  destruct (probe_load env) as [b | e]; [| reflexivity].
  erewrite bind_normal; [reflexivity |].
  unfold store. now rewrite lookup_last_added, insert_last_added.
Qed.

Lemma delete_last_added (h : Heap) (v : NativeVal) :
  delete_native (length h) (h ++ [mkNativeObj v Live])
  = (Normal tt, h ++ [mkNativeObj v Released]).
Proof. unfold delete_native. now rewrite lookup_last_added, insert_last_added. Qed.

(** The [try] block and its [catch], path by path. *)
Lemma probe_cascade_run (env : InitEnv) (w : CvWorld) :
  probe_cascade env w =
  if classifier_constructs env then
    match probe_load env with
    | Normal b =>
        (Fulfils (negb b),
         mkCvWorld (w_heap w ++ [mkNativeObj (VCascadeClassifier b) Released])
           (w_files w) (w_requests w))
    | Throw _ =>
        (Fulfils true,
         mkCvWorld (w_heap w ++ [mkNativeObj (VCascadeClassifier false) Live])
           (w_files w) (w_requests w))
    end
  else (Fulfils true, w).
Proof.
  unfold probe_cascade, try_catch, new_testClassifier.
  destruct (classifier_constructs env); cycle 1.
  { now erewrite init_bind_rejects by reflexivity. }
  erewrite init_bind_fulfils; [| now apply on_heap_normal].
  destruct (probe_load env) as [b | e] eqn:Hload.
  - erewrite init_bind_fulfils; cycle 1.
    { apply on_heap_normal. cbn [w_heap]. rewrite test_load_run, Hload. reflexivity. }
    erewrite init_bind_fulfils; cycle 1.
    { apply on_heap_normal. cbn [w_heap]. apply delete_last_added. }
    reflexivity.
  - erewrite init_bind_rejects; cycle 1.
    { apply on_heap_throw. cbn [w_heap]. rewrite test_load_run, Hload. reflexivity. }
    reflexivity.
Qed.

(** One [await] or engine call of [initOpenCV]. *)
Ltac init_step :=
  first
    [ erewrite init_bind_fulfils by reflexivity
    | erewrite init_bind_rejects by reflexivity
    | erewrite init_bind_never by reflexivity
    | erewrite init_bind_fulfils by (rewrite probe_cascade_run; reflexivity) ].

(** Every path of [initOpenCV], by cases on what the browser and the
    engine answer. *)
Ltac init_paths env :=
  unfold initOpenCV;
  destruct env as [script cvg ctor pl fc cdf];
  cbn [script_loaded window_cv classifier_constructs probe_load fetch_cascade
       createDataFile_ok];
  destruct script as [[] | ? |]; [| repeat init_step; cbn; eauto 8 ..];
  destruct cvg as [| [[] | ? |] | [[] | ? |] | [] []];
  destruct ctor; try destruct pl as [[] | ?];
  try destruct fc as [[[] [? | ? |]] | ? |];
  try destruct cdf;
  repeat init_step; cbn.

(** X21.  One call of [initOpenCV] requests the cascade file at most
    once and creates at most one file, named as the cascade file.  When
    the probe finds that the engine can already load the cascade, it
    requests nothing and creates nothing. *)
Theorem initOpenCV_fetches_at_most_once (env : InitEnv) (w : CvWorld) :
  let w' := snd (initOpenCV env w) in
  (w_requests w' = w_requests w \/
   w_requests w' = w_requests w ++ [HAAR_CASCADE_URL]) /\
  (w_files w' = w_files w \/
   exists data, w_files w' = w_files w ++ [(HAAR_CASCADE_FILE, data)]) /\
  (classifier_constructs env = true -> probe_load env = Normal true ->
   w_requests w' = w_requests w /\ w_files w' = w_files w).
Proof.
  cbv zeta. init_paths env; repeat split; eauto; try discriminate.
Qed.

Lemma initOpenCV_fetches_at_most_once_witness :
  let env :=
    mkInitEnv (Fulfils tt) (CvObject true true) true (Normal true)
      (Rejects (JsError "TypeError: Failed to fetch")) true in
  let w := mkCvWorld [] [("a.xml", [1])] ["https://example.org/"] in
  fst (initOpenCV env w) = Fulfils tt /\
  w_requests (snd (initOpenCV env w)) = w_requests w /\
  w_files (snd (initOpenCV env w)) = w_files w.
Proof.
  intros env w. split; [reflexivity |].
  destruct (initOpenCV_fetches_at_most_once env w) as (_ & _ & H).
  exact (H eq_refl eq_refl).
Defined.

(** X22.  The status of the classical engine becomes [ready] only when
    the script has loaded and the cascade is at hand: either the probe
    loaded it, and then nothing was requested or created, or the server
    answered the one request with [ok] and the bytes of the answer were
    written to the engine's file system under the cascade's name. *)
Theorem ready_means_cascade_available (env : InitEnv) (w : CvWorld)
  (Hready : statusAfterInit (fst (initOpenCV env w)) = ready) :
  let w' := snd (initOpenCV env w) in
  script_loaded env = Fulfils tt /\
  ((classifier_constructs env = true /\ probe_load env = Normal true /\
    w_requests w' = w_requests w /\ w_files w' = w_files w) \/
   (exists data,
      fetch_cascade env = Fulfils (mkResponse true (Fulfils data)) /\
      w_requests w' = w_requests w ++ [HAAR_CASCADE_URL] /\
      w_files w' = w_files w ++ [(HAAR_CASCADE_FILE, data)])).
Proof.
  cbv zeta. revert Hready.
  init_paths env; intros Hready; try discriminate Hready;
    (split; [reflexivity |]); eauto 8.
Qed.

Lemma ready_means_cascade_available_witness :
  let env :=
    mkInitEnv (Fulfils tt) (CvFactory (Fulfils tt)) true (Normal false)
      (Fulfils (mkResponse true (Fulfils [60; 63; 120]))) true in
  let w := mkCvWorld [] [] [] in
  statusAfterInit (fst (initOpenCV env w)) = ready /\
  snd (initOpenCV env w)
  = mkCvWorld [mkNativeObj (VCascadeClassifier false) Released]
      [(HAAR_CASCADE_FILE, [60; 63; 120])] [HAAR_CASCADE_URL] /\
  script_loaded env = Fulfils tt.
Proof.
  intros env w. split; [reflexivity |]. split; [reflexivity |].
  exact (proj1 (ready_means_cascade_available env w eq_refl)).
Defined.

(** X23.  [initOpenCV] adds at most one object to the native heap, the
    classifier of the probe, and leaves the others alone.  The classifier
    is released when its [load] returns; when [load] throws, the [catch]
    swallows the exception and the classifier stays live. *)
Theorem initOpenCV_test_classifier (env : InitEnv) (w : CvWorld) :
  let h' := w_heap (snd (initOpenCV env w)) in
  h' = w_heap w \/
  (exists b, probe_load env = Normal b /\
             h' = w_heap w ++ [mkNativeObj (VCascadeClassifier b) Released]) \/
  (exists e, probe_load env = Throw e /\
             h' = w_heap w ++ [mkNativeObj (VCascadeClassifier false) Live]).
Proof.
  cbv zeta. init_paths env; eauto 8.
Qed.
